(** * Shelf-life prediction: GAB moisture sorption, Arrhenius oxidation and
      their fusion

    A shallow embedding of [combined_model.py], [oxidation_fit.py] and
    [moisture_fit.py], followed by the properties of the model-fitting and
    fusion engine.

    Numbers.  The program computes with IEEE binary64 values (numpy
    [float64] and Python [float]).  They are embedded as the real numbers
    extended with the two infinities and NaN: NaN is the program's
    "unavailable" sentinel and every test the program makes on it is kept.
    Rounding, overflow and the sign of a zero are not represented, so each
    numeric statement below is a statement about the exact value of the
    expression the program evaluates.  Module [Binary64] states the
    moisture arithmetic over binary64 itself, and the last section
    re-evaluates the concrete examples there.

    Exceptions.  Python code that can raise returns a [result].  Dividing two
    Python numbers by zero raises; dividing numpy scalars never does.

    Libraries.  scipy's [curve_fit] and scikit-learn's metrics are
    parameters of the fitting code: functions that return a value or raise.
    Reading the spreadsheet, plotting, printing and writing the tables are
    left out. *)

From Stdlib Require Import Reals Lra List String Ascii ZArith Bool Lia.
From Stdlib Require Import Sorted Permutation.
From Stdlib Require PrimFloat.
From Stdlib Require OrderedTypeEx.
Import ListNotations.

(** ** Extended real numbers standing for float64 *)

Module NP.

Local Open Scope R_scope.

Inductive float : Type :=
| NaN
| Inf (neg : bool)
| Fin (x : R).

Definition Req_b (x y : R) : bool := if Req_dec_T x y then true else false.
Definition Rle_b (x y : R) : bool := if Rle_dec x y then true else false.
Definition Rlt_b (x y : R) : bool := if Rlt_dec x y then true else false.

(** [np.isnan] *)
Definition isnan (a : float) : bool :=
  match a with NaN => true | _ => false end.

Definition fneg (a : float) : float :=
  match a with
  | NaN => NaN
  | Inf s => Inf (negb s)
  | Fin x => Fin (- x)
  end.

Definition fadd (a b : float) : float :=
  match a, b with
  | NaN, _ | _, NaN => NaN
  | Inf s, Inf t => if Bool.eqb s t then Inf s else NaN
  | Inf s, Fin _ => Inf s
  | Fin _, Inf t => Inf t
  | Fin x, Fin y => Fin (x + y)
  end.

Definition fsub (a b : float) : float := fadd a (fneg b).

Definition fmul (a b : float) : float :=
  match a, b with
  | NaN, _ | _, NaN => NaN
  | Inf s, Inf t => Inf (xorb s t)
  | Inf s, Fin y => if Req_b y 0 then NaN else Inf (xorb s (Rlt_b y 0))
  | Fin x, Inf t => if Req_b x 0 then NaN else Inf (xorb (Rlt_b x 0) t)
  | Fin x, Fin y => Fin (x * y)
  end.

(** numpy's true division: a zero divisor gives an infinity, or NaN for
    0/0, and a warning; it never raises.  A non-zero number divided by zero
    is given the sign of the numerator. *)
Definition fdiv (a b : float) : float :=
  match a, b with
  | NaN, _ | _, NaN => NaN
  | Inf _, Inf _ => NaN
  | Inf s, Fin y => Inf (xorb s (Rlt_b y 0))
  | Fin _, Inf _ => Fin 0
  | Fin x, Fin y =>
      if Req_b y 0 then (if Req_b x 0 then NaN else Inf (Rlt_b x 0))
      else Fin (x / y)
  end.

(** [np.exp] *)
Definition fexp (a : float) : float :=
  match a with
  | NaN => NaN
  | Inf false => Inf false
  | Inf true => Fin 0
  | Fin x => Fin (exp x)
  end.

(** [np.log] *)
Definition flog (a : float) : float :=
  match a with
  | NaN => NaN
  | Inf false => Inf false
  | Inf true => NaN
  | Fin x =>
      if Rlt_b 0 x then Fin (ln x)
      else if Req_b x 0 then Inf true else NaN
  end.

(** [np.abs] *)
Definition fabs (a : float) : float :=
  match a with
  | NaN => NaN
  | Inf _ => Inf false
  | Fin x => Fin (Rabs x)
  end.

(** [np.sqrt] *)
Definition fsqrt (a : float) : float :=
  match a with
  | NaN => NaN
  | Inf false => Inf false
  | Inf true => NaN
  | Fin x => if Rlt_b x 0 then NaN else Fin (sqrt x)
  end.

(** [<=]: false as soon as one side is NaN. *)
Definition fle (a b : float) : bool :=
  match a, b with
  | NaN, _ | _, NaN => false
  | Inf true, _ => true
  | _, Inf false => true
  | Inf false, _ => false
  | _, Inf true => false
  | Fin x, Fin y => Rle_b x y
  end.

(** [==]: false as soon as one side is NaN. *)
Definition feq (a b : float) : bool :=
  match a, b with
  | NaN, _ | _, NaN => false
  | Inf s, Inf t => Bool.eqb s t
  | Fin x, Fin y => Req_b x y
  | _, _ => false
  end.

End NP.

Export NP.

Declare Scope np_scope.
Delimit Scope np_scope with fl.
Bind Scope np_scope with float.
Notation "x + y" := (fadd x y) : np_scope.
Notation "x - y" := (fsub x y) : np_scope.
Notation "x * y" := (fmul x y) : np_scope.
Notation "x / y" := (fdiv x y) : np_scope.
Notation "- x" := (fneg x) : np_scope.
Notation "x <=? y" := (fle x y) : np_scope.
Notation "x =? y" := (feq x y) : np_scope.

(** ** Python exceptions *)

Module Py.

Inductive exn : Type :=
| ZeroDivisionError
| IndexError
| RuntimeError
| TypeError
| ValueError.

Inductive result (A : Type) : Type :=
| OK (a : A)
| Raise (e : exn).

Arguments OK {A} a.
Arguments Raise {A} e.

Definition bind {A B : Type} (m : result A) (k : A -> result B) : result B :=
  match m with
  | OK a => k a
  | Raise e => Raise e
  end.

(** [try: body; except RuntimeError: handler] *)
Definition except_RuntimeError {A : Type} (body : result A) (handler : A)
  : result A :=
  match body with
  | Raise RuntimeError => OK handler
  | r => r
  end.

(** [try: body; except Exception: handler]; every exception of [exn] is a
    subclass of [Exception]. *)
Definition except_Exception {A : Type} (body : result A) (handler : A) : A :=
  match body with
  | OK a => a
  | Raise _ => handler
  end.

(** True division of two Python [float]s raises on a zero divisor. *)
Definition truediv (a b : float) : result float :=
  match b with
  | Fin y => if Req_b y 0 then Raise ZeroDivisionError else OK (a / b)%fl
  | _ => OK (a / b)%fl
  end.

(** [seq[0]] / [.iloc[0]] *)
Definition iloc0 {A : Type} (l : list A) : result A :=
  match l with
  | a :: _ => OK a
  | [] => Raise IndexError
  end.

End Py.

Export Py.

Notation "x <- m ;; k" := (bind m (fun x => k))
  (at level 61, m at next level, right associativity).

(** ** combined_model.py *)

Module CombinedModel.

Local Open Scope string_scope.
Local Open Scope np_scope.

(** [R = 8.314]; the source's name is taken by the type of real numbers. *)
Definition R_gas : float := Fin 8.314.

Definition gab_model (aw W_m C K : float) : float :=
  W_m * C * K * aw / ((Fin 1 - K * aw) * (Fin 1 - K * aw + C * K * aw)).

(** The fitted parameters reach this function as numpy scalars, the scenario
    constants as Python numbers: only [W_s / (A * WVTR)] can raise. *)
Definition predict_shelf_life_moisture (W_m C K W_s A WVTR aw_c aw_0 : float)
  : result float :=
  let M_c := gab_model aw_c W_m C K in
  let M_0 := gab_model aw_0 W_m C K in
  q <- truediv W_s (A * WVTR) ;;
  OK (q * (M_c - M_0)).

(** [E_a] and [k_0] reach this function as numpy scalars, so none of its
    divisions raises. *)
Definition predict_shelf_life_oxidation (E_a k_0 T_C : float) : float :=
  if isnan E_a || isnan k_0 then NaN
  else
    let T_K := T_C + Fin 273.15 in
    let k_T := k_0 * fexp (- E_a * Fin 1000 / (R_gas * T_K)) in
    let IP_h := Fin 1 / k_T in
    IP_h / Fin 24.

Definition CATEGORY_MAP : list (string * string) :=
  [ ("C", "Crackers");
    ("D", "Sweet biscuit");
    ("F", "Cream filling");
    ("O", "Snack (oil)");
    ("P", "Baked snack");
    ("S", "Sandwich biscuit");
    ("W", "Sugar Wafers") ].

(** [category in [...]] *)
Definition str_in (s : string) (l : list string) : bool :=
  existsb (String.eqb s) l.

Definition get_aw_values (category : string) : float * float :=
  let aw_c := if str_in category ["C"; "D"; "P"; "S"] then Fin 0.6
              else Fin 0.5 in
  let aw_0 := if str_in category ["D"; "S"] then Fin 0.4
              else Fin 0.3 in
  (aw_c, aw_0).

(** One row of [gab_params_by_category.csv]. *)
Record moisture_row : Type := MoistureRow {
  mr_category : string;
  mr_W_m : float;
  mr_C : float;
  mr_K : float
}.

(** One row of [oxidation_params_by_category.csv]. *)
Record oxidation_row : Type := OxidationRow {
  or_category : string;
  or_e_a : float;
  or_k_0 : float;
  or_ip_days_25c : float
}.

Definition predict_shelf_life_combined
    (category : string)
    (moisture_df : list moisture_row) (oxidation_df : list oxidation_row)
    (T W_s A WVTR : float) : result (float * string) :=
  gab <- (if str_in category (map mr_category moisture_df) then
            row <- iloc0 (filter (fun r => String.eqb (mr_category r) category)
                                 moisture_df) ;;
            OK (mr_W_m row, mr_C row, mr_K row)
          else OK (NaN, NaN, NaN)) ;;
  let '(W_m, C, K) := gab in
  arr <- (if str_in category (map or_category oxidation_df) then
            row <- iloc0 (filter (fun r => String.eqb (or_category r) category)
                                 oxidation_df) ;;
            OK (or_e_a row, or_k_0 row)
          else OK (NaN, NaN)) ;;
  let '(E_a, k_0) := arr in
  let '(aw_c, aw_0) := get_aw_values category in
  shelf_life_moisture <-
    (if negb (isnan W_m) then
       predict_shelf_life_moisture W_m C K W_s A WVTR aw_c aw_0
     else OK NaN) ;;
  let shelf_life_oxidation :=
    if negb (isnan E_a) then predict_shelf_life_oxidation E_a k_0 T
    else NaN in
  if negb (isnan shelf_life_moisture) && negb (isnan shelf_life_oxidation) then
    if shelf_life_moisture <=? shelf_life_oxidation then
      OK (shelf_life_moisture, "moisture gain")
    else
      OK (shelf_life_oxidation, "lipid oxidation")
  else if negb (isnan shelf_life_moisture) then
    OK (shelf_life_moisture, "moisture gain")
  else if negb (isnan shelf_life_oxidation) then
    OK (shelf_life_oxidation, "lipid oxidation")
  else
    OK (NaN, "none").

(** Default scenario constants of [predict_shelf_life_combined]. *)
Definition T_default : float := Fin 25.
Definition W_s_default : float := Fin 200.
Definition A_default : float := Fin 0.1.
Definition WVTR_default : float := Fin 0.5.

(** One row of [shelf_life_predictions_by_category.csv]. *)
Record prediction_row : Type := PredictionRow {
  category_code : string;
  category_name : string;
  shelf_life_pred_days : float;
  dominant_model : string
}.

(** [main], the loop that fills [results]:
    [for cat in CATEGORY_MAP.keys(): ... results.append([cat,
    CATEGORY_MAP[cat], shelf_life, model])], the dictionary read as the list
    of its items, in insertion order. *)
Fixpoint default_predictions_loop (items : list (string * string))
    (moisture_df : list moisture_row) (oxidation_df : list oxidation_row)
    (results : list prediction_row) : result (list prediction_row) :=
  match items with
  | [] => OK results
  | (cat, name) :: rest =>
      r <- predict_shelf_life_combined cat moisture_df oxidation_df
             (Fin 25) (Fin 200) (Fin 0.1) (Fin 0.5) ;;
      let '(shelf_life, model) := r in
      default_predictions_loop rest moisture_df oxidation_df
        (results ++ [PredictionRow cat name shelf_life model])%list
  end.

Definition default_predictions (moisture_df : list moisture_row)
    (oxidation_df : list oxidation_row) : result (list prediction_row) :=
  default_predictions_loop CATEGORY_MAP moisture_df oxidation_df [].

End CombinedModel.

(** ** pandas and numpy helpers shared by the two fitting scripts *)

Module PD.

Local Open Scope np_scope.

Section GroupBy.
Context {A K : Type}.
Variable key : A -> K.
(** [dropna]: rows whose key is missing belong to no group. *)
Variable present : K -> bool.
Variables (eqb leb : K -> K -> bool).

Fixpoint insert_key (k : K) (ks : list K) : list K :=
  match ks with
  | [] => [k]
  | h :: t =>
      if eqb k h then ks
      else if leb k h then k :: ks
      else h :: insert_key k t
  end.

(** The distinct keys, ascending. *)
Definition keys (df : list A) : list K :=
  fold_left (fun acc r => if present (key r) then insert_key (key r) acc
                          else acc) df [].

(** [df.groupby(key)]: one group per distinct key, keys ascending, the
    rows of a group in their order in [df]. *)
Definition groupby (df : list A) : list (K * list A) :=
  map (fun k => (k, filter (fun r => eqb (key r) k) df)) (keys df).
End GroupBy.

(** [np.sum] *)
Definition np_sum (a : list float) : float := fold_left fadd a (Fin 0).

(** [.mean()] of a pandas group: missing values are skipped. *)
Definition mean (a : list float) : float :=
  let v := filter (fun x => negb (isnan x)) a in
  match v with
  | [] => NaN
  | _ => np_sum v / Fin (INR (List.length v))
  end.

Fixpoint insert_sorted (x : float) (l : list float) : list float :=
  match l with
  | [] => [x]
  | y :: t => if x <=? y then x :: l else y :: insert_sorted x t
  end.

Definition sort (a : list float) : list float :=
  fold_right insert_sorted [] a.

(** [np.median]: NaN when the array is empty or holds a NaN, else the middle
    of the sorted values, the mean of the two middle ones for an even
    count. *)
Definition median (a : list float) : float :=
  if existsb isnan a then NaN
  else
    let s := sort a in
    let n := List.length s in
    match n with
    | O => NaN
    | _ =>
        if Nat.odd n then nth (n / 2) s NaN
        else (nth (n / 2 - 1) s NaN + nth (n / 2) s NaN) / Fin 2
    end.

(** [df.loc[mask]] for a boolean array [mask] as long as [df]. *)
Definition loc_mask {A : Type} (df : list A) (mask : list bool) : list A :=
  map fst (filter snd (combine df mask)).

End PD.

(** ** oxidation_fit.py *)

Module OxidationFit.

Import PD.
Local Open Scope string_scope.
Local Open Scope np_scope.

Definition R_gas : float := Fin 8.314.
Definition T_25 : float := Fin 298.15.

(** One row of the [oxidation] sheet. *)
Record oxidation_measurement : Type := OxidationMeasurement {
  category : string;
  set_point_t : float;
  ip_h : float
}.

Definition mad (series : list float) : float :=
  let medium := median series in
  median (map (fun x => fabs (x - medium)) series).

Definition robust_z (series : list float) : list float :=
  let medium := median series in
  let m := mad series in
  if m =? Fin 0 then map (fun _ => Fin 0) series
  else map (fun x => Fin 0.6745 * (x - medium) / m) series.

Definition remove_outliers (group : list oxidation_measurement)
    (z_thresh : float) (min_n : Z) : list oxidation_measurement :=
  let df := group in
  if (Z.of_nat (List.length df) <? min_n)%Z then df
  else
    let ln_ip := map (fun r => flog (ip_h r)) df in
    let z := robust_z ln_ip in
    let mask := map (fun zi => fabs zi <=? z_thresh) z in
    loc_mask df mask.

Definition z_thresh_default : float := Fin 3.5.
Definition min_n_default : Z := 6%Z.

Definition arrhenius_linear_model (x a b : float) : float := a + b * x.

(** What [fit_arrhenius_model] returns; [fit_xy] holds [x], [y] and [y_pred],
    or [None] three times. *)
Record arrhenius_fit : Type := ArrheniusFit {
  fit_Ea : float;
  fit_k_0 : float;
  fit_IP_25 : float;
  fit_r2 : float;
  fit_rmse : float;
  fit_mae : float;
  fit_rss : float;
  fit_xy : option (list float * list float * list float)
}.

Definition fit_unavailable : arrhenius_fit :=
  ArrheniusFit NaN NaN NaN NaN NaN NaN NaN None.

Section Fit.
(** scipy's [curve_fit(arrhenius_linear_model, x, y)]: the fitted [(a, b)],
    or the exception it raises. *)
Variable curve_fit : list float -> list float -> result (float * float).
(** scikit-learn's metrics; they validate their input and may raise. *)
Variables r2_score mean_squared_error mean_absolute_error :
  list float -> list float -> result float.

Definition fit_arrhenius_model (temps_C ips : list float) : arrhenius_fit :=
  let temps_K := map (fun t => t + Fin 273.15) temps_C in
  let x := map (fun t => Fin 1 / t) temps_K in
  let y := map (fun ip => flog (Fin 1 / ip)) ips in
  except_Exception
    (params <- curve_fit x y ;;
     let '(a, b) := params in
     let Ea := - b * R_gas / Fin 1000 in
     let k_0 := fexp a in
     let ln_1_IP_25 := arrhenius_linear_model (Fin 1 / T_25) a b in
     let IP_25 := fexp (- ln_1_IP_25) in
     let y_pred := map (fun xi => arrhenius_linear_model xi a b) x in
     r2 <- r2_score y y_pred ;;
     mse <- mean_squared_error y y_pred ;;
     let rmse := fsqrt mse in
     mae <- mean_absolute_error y y_pred ;;
     let rss := np_sum (map (fun yp => (fst yp - snd yp) * (fst yp - snd yp))
                          (combine y y_pred)) in
     OK (ArrheniusFit Ea k_0 IP_25 r2 rmse mae rss (Some (x, y, y_pred))))
    fit_unavailable.

(** [group.groupby('set_point_t')['ip_h'].mean().reset_index()] *)
Definition average_per_temperature (group : list oxidation_measurement)
  : list (float * float) :=
  map (fun kg => (fst kg, mean (map ip_h (snd kg))))
    (groupby set_point_t (fun k => negb (isnan k)) feq fle group).

(** The body of the loop over the categories: the row appended to
    [ox_results]. *)
Definition ox_result (category : string) (group : list oxidation_measurement)
  : CombinedModel.oxidation_row :=
  let grouped := average_per_temperature group in
  let temps_C := map fst grouped in
  let ips := map snd grouped in
  let f := fit_arrhenius_model temps_C ips in
  let IP_25_days := if negb (isnan (fit_IP_25 f)) then fit_IP_25 f / Fin 24
                    else NaN in
  CombinedModel.OxidationRow category (fit_Ea f) (fit_k_0 f) IP_25_days.

(** [for category, group in cleaned.groupby('category'): ...] *)
Definition ox_results (cleaned : list oxidation_measurement)
  : list CombinedModel.oxidation_row :=
  fold_left (fun acc kg => (acc ++ [ox_result (fst kg) (snd kg)])%list)
    (groupby category (fun _ => true) String.eqb String.leb cleaned) [].
End Fit.

End OxidationFit.

(** ** moisture_fit.py *)

Module MoistureFit.

Import PD.
Local Open Scope string_scope.
Local Open Scope np_scope.

Definition gab_model (aw W_m C K : float) : float :=
  W_m * C * K * aw / ((Fin 1 - K * aw) * (Fin 1 - K * aw + C * K * aw)).

(** One row of the [moisture] sheet, its two numeric cells after
    [pd.to_numeric(errors='coerce')]: NaN where the cell is missing or not a
    number. *)
Record moisture_measurement : Type := MoistureMeasurement {
  category : string;
  water_activity : float;
  moisture_content : float
}.

Definition init_params : float * float * float := (Fin 0.05, Fin 10, Fin 0.8).

Section Fit.
(** scipy's [curve_fit(gab_model, aw, moisture, p0=..., maxfev=10000)]: the
    fitted [(W_m, C, K)], or the exception it raises. *)
Variable curve_fit :
  list float -> list float -> float * float * float ->
  result (float * float * float).
Variables r2_score mean_squared_error mean_absolute_error :
  list float -> list float -> result float.

Definition fit_gab_model (aw moisture : list float)
  : result (float * float * float) :=
  except_RuntimeError
    (params <- curve_fit aw moisture init_params ;; OK params)
    (NaN, NaN, NaN).

(** The body of the loop over the categories: the row appended to
    [gab_results], unless an exception leaves the loop. *)
Definition gab_result (category : string) (group : list moisture_measurement)
  : result CombinedModel.moisture_row :=
  let aw := map water_activity group in
  let moisture := map moisture_content group in
  let valid := map (fun am => negb (isnan (fst am)) && negb (isnan (snd am)))
                 (combine aw moisture) in
  let aw_clean := loc_mask aw valid in
  let moisture_clean := loc_mask moisture valid in
  params <- fit_gab_model aw_clean moisture_clean ;;
  let '(W_m, C, K) := params in
  _ <- (if negb (isnan W_m) then
          let moisture_pred := map (fun a => gab_model a W_m C K) aw_clean in
          r2 <- r2_score moisture_clean moisture_pred ;;
          mse <- mean_squared_error moisture_clean moisture_pred ;;
          let rmse := fsqrt mse in
          mae <- mean_absolute_error moisture_clean moisture_pred ;;
          let rss := np_sum (map (fun mp => (fst mp - snd mp)
                                            * (fst mp - snd mp))
                               (combine moisture_clean moisture_pred)) in
          OK tt
        else OK tt) ;;
  OK (CombinedModel.MoistureRow category W_m C K).

(** [for category, group in moisture_df.groupby('category'): ...] *)
Fixpoint gab_loop (groups : list (string * list moisture_measurement))
    (gab_results : list CombinedModel.moisture_row)
  : result (list CombinedModel.moisture_row) :=
  match groups with
  | [] => OK gab_results
  | (category, group) :: rest =>
      row <- gab_result category group ;;
      gab_loop rest (gab_results ++ [row])%list
  end.

(** The script: the rows written to [gab_params_by_category.csv]. *)
Definition gab_results (moisture_df : list moisture_measurement)
  : result (list CombinedModel.moisture_row) :=
  gab_loop (groupby category (fun _ => true) String.eqb String.leb
              moisture_df) [].
End Fit.

End MoistureFit.

(** ** The moisture pathway in binary64 *)

(** The two arithmetic functions of the moisture pathway once more, over the
    machine's binary64 numbers, to evaluate concrete inputs as the program
    does, rounding included. *)

Module Binary64.

Import PrimFloat.
Local Open Scope float_scope.
#[local] Set Warnings "-inexact-float".

Definition gab_model (aw W_m C K : float) : float :=
  W_m * C * K * aw / ((1 - K * aw) * (1 - K * aw + C * K * aw)).

(** For a divisor [A * WVTR] that is not zero. *)
Definition predict_shelf_life_moisture (W_m C K W_s A WVTR aw_c aw_0 : float)
  : float :=
  let M_c := gab_model aw_c W_m C K in
  let M_0 := gab_model aw_0 W_m C K in
  (W_s / (A * WVTR)) * (M_c - M_0).

(** [T_K = T_C + 273.15] *)
Definition kelvin (T_C : float) : float := T_C + 273.15.

End Binary64.

(** * The specification's vocabulary *)

(** The quantities the specification speaks of, over the real numbers, and
    the readings of a parameter table it leaves implicit. *)

Module Spec.

Import CombinedModel.
Local Open Scope R_scope.

(** The isotherm as the specification writes it,
    [M(a_w) = W_m C K a_w / ((1 - K a_w)(1 - K a_w + C K a_w))]. *)
Definition M (W_m C K aw : R) : R :=
  W_m * C * K * aw / ((1 - K * aw) * (1 - K * aw + C * K * aw)).

(** The isotherm is defined where its denominator is not zero. *)
Definition M_defined (C K aw : R) : Prop :=
  (1 - K * aw) * (1 - K * aw + C * K * aw) <> 0.

(** The moisture-pathway shelf life,
    [(W_s / (A WVTR)) (M(a_w_c) - M(a_w_0))]. *)
Definition moisture_shelf_life (W_m C K W_s A WVTR aw_c aw_0 : R) : R :=
  W_s / (A * WVTR) * (M W_m C K aw_c - M W_m C K aw_0).

(** The oxidation-pathway shelf life in days at [T_C] degrees Celsius: the
    induction period [1 / (k_0 exp (- E_a 1000 / (R T_K)))] hours. *)
Definition oxidation_shelf_life (E_a k_0 T_C : R) : R :=
  1 / (k_0 * exp (- E_a * 1000 / (8.314 * (T_C + 273.15)))) / 24.

(** The row of a category in a parameter table: the first one, should the
    table hold several. *)
Definition moisture_params (category : string) (df : list moisture_row)
  : option moisture_row :=
  find (fun r => String.eqb (mr_category r) category) df.

Definition oxidation_params (category : string) (df : list oxidation_row)
  : option oxidation_row :=
  find (fun r => String.eqb (or_category r) category) df.

(** A pathway's fitted parameters are available when the table has a row
    for the category and the row is not the sentinel. *)
Definition moisture_available (category : string) (df : list moisture_row)
  : bool :=
  match moisture_params category df with
  | Some r => negb (isnan (mr_W_m r))
  | None => false
  end.

Definition oxidation_available (category : string) (df : list oxidation_row)
  : bool :=
  match oxidation_params category df with
  | Some r => negb (isnan (or_e_a r))
  | None => false
  end.

(** The moisture-pathway shelf life of a category under a pair of water
    activities: NaN when its parameters are not available. *)
Definition moisture_pathway_at (aw : float * float) (category : string)
    (df : list moisture_row) (W_s A WVTR : float) : result float :=
  match moisture_params category df with
  | Some r =>
      if isnan (mr_W_m r) then OK NaN
      else predict_shelf_life_moisture (mr_W_m r) (mr_C r) (mr_K r)
             W_s A WVTR (fst aw) (snd aw)
  | None => OK NaN
  end.

Definition moisture_pathway (category : string) (df : list moisture_row)
    (W_s A WVTR : float) : result float :=
  moisture_pathway_at (get_aw_values category) category df W_s A WVTR.

(** The oxidation-pathway shelf life of a category: NaN when its parameters
    are not available. *)
Definition oxidation_pathway (category : string) (df : list oxidation_row)
    (T : float) : float :=
  match oxidation_params category df with
  | Some r =>
      if isnan (or_e_a r) then NaN
      else predict_shelf_life_oxidation (or_e_a r) (or_k_0 r) T
  | None => NaN
  end.

(** The selection rule: what [predict_shelf_life_combined] returns from the
    two pathway values. *)
Definition dominant (m o : float) : float * string :=
  if negb (isnan m) && negb (isnan o) then
    if (m <=? o)%fl then (m, "moisture gain"%string)
    else (o, "lipid oxidation"%string)
  else if negb (isnan m) then (m, "moisture gain"%string)
  else if negb (isnan o) then (o, "lipid oxidation"%string)
  else (NaN, "none"%string).

(** A shelf life is a number of days that is not negative; the program also
    produces plus infinity (a division by a zero rate). *)
Definition nonneg (v : float) : Prop :=
  match v with
  | NaN => False
  | Inf s => s = false
  | Fin x => 0 <= x
  end.

(** ... or the "unavailable" sentinel. *)
Definition nonneg_or_unavailable (v : float) : Prop :=
  v = NaN \/ nonneg v.




(** The median of a list of real numbers: the middle of the sorted values,
    the mean of the two middle ones for an even count. *)
Fixpoint Rinsert (x : R) (l : list R) : list R :=
  match l with
  | [] => [x]
  | y :: t => if Rle_dec x y then x :: l else y :: Rinsert x t
  end.

Definition Rsort (l : list R) : list R := fold_right Rinsert [] l.

Definition Rmedian (l : list R) : R :=
  let s := Rsort l in
  let n := List.length s in
  if Nat.odd n then nth (n / 2) s 0
  else (nth (n / 2 - 1) s 0 + nth (n / 2) s 0) / 2.

(** The median absolute deviation. *)
Definition RMAD (l : list R) : R :=
  Rmedian (map (fun x => Rabs (x - Rmedian l)) l).

(** The robust z-score [0.6745 (x - median) / MAD] of [x] within [l]. *)
Definition robust_z_score (l : list R) (x : R) : R :=
  0.6745 * (x - Rmedian l) / RMAD l.

(** An induction period is flagged when the robust z-score of its logarithm
    among the logarithms [lns] of its group exceeds the threshold in
    absolute value. *)
Definition flagged (z_thresh : R) (lns : list R) (ip : R) : bool :=
  Rlt_b z_thresh (Rabs (robust_z_score lns (ln ip))).

(** [l1] is [l2] with some elements left out, the others in their order. *)
Inductive subseq {A : Type} : list A -> list A -> Prop :=
| subseq_nil : subseq [] []
| subseq_skip (a : A) (l1 l2 : list A) : subseq l1 l2 -> subseq l1 (a :: l2)
| subseq_keep (a : A) (l1 l2 : list A) :
    subseq l1 l2 -> subseq (a :: l1) (a :: l2).

(** A measurement with its induction period in another unit of time. *)
Definition rescale (c : R) (r : OxidationFit.oxidation_measurement)
  : OxidationFit.oxidation_measurement :=
  OxidationFit.OxidationMeasurement (OxidationFit.category r)
    (OxidationFit.set_point_t r) (OxidationFit.ip_h r * Fin c)%fl.

(** A reading whose logarithm is NaN: a missing one, or a negative one. *)
Definition unusable_reading (ip : float) : Prop :=
  ip = NaN \/ ip = Inf true \/ exists x : R, ip = Fin x /\ x < 0.

(** The abscissae and ordinates of the linearised Arrhenius fit:
    [1 / T_K] and [ln (1 / IP)]. *)
Definition reciprocal_kelvin (temps_C : list float) : list float :=
  map (fun t_K => Fin 1 / t_K)%fl (map (fun t => t + Fin 273.15)%fl temps_C).

Definition log_rate (ips : list float) : list float :=
  map (fun ip => flog (Fin 1 / ip)%fl) ips.

(** The valid observations of a category of the moisture sheet: the rows
    whose two cells are numbers. *)
Definition valid_observations (group : list MoistureFit.moisture_measurement)
  : list MoistureFit.moisture_measurement :=
  filter (fun r => negb (isnan (MoistureFit.water_activity r))
                   && negb (isnan (MoistureFit.moisture_content r))) group.

(** The "unavailable" rows of the two parameter tables. *)
Definition gab_unavailable (category : string) : moisture_row :=
  MoistureRow category NaN NaN NaN.

Definition arrhenius_unavailable (category : string) : oxidation_row :=
  OxidationRow category NaN NaN NaN.

(** Strictly below, for two floats: false as soon as one is NaN. *)
Definition float_lt (a b : float) : Prop :=
  (a <=? b)%fl = true /\ (a =? b)%fl = false.

(** Strictly before, for two category codes, in the order of their
    characters. *)
Definition code_lt (a b : string) : Prop := String.ltb a b = true.

(** The row of a category in the GAB table when nothing but a convergence
    failure is raised: the optimiser's parameters, or the "unavailable"
    row. *)
Definition expected_gab_row
    (curve_fit : list float -> list float -> float * float * float ->
                 result (float * float * float))
    (category : string) (group : list MoistureFit.moisture_measurement)
  : moisture_row :=
  match curve_fit (map MoistureFit.water_activity (valid_observations group))
          (map MoistureFit.moisture_content (valid_observations group))
          MoistureFit.init_params with
  | OK (W_m, C, K) => MoistureRow category W_m C K
  | Raise _ => gab_unavailable category
  end.

End Spec.

(** Sample parameter tables and measurements, used to instantiate the
    properties. *)

Module Sample.

Import CombinedModel.
Local Open Scope string_scope.
Local Open Scope R_scope.

Definition gab_table : list moisture_row :=
  [MoistureRow "C" (Fin 0.05) (Fin 10) (Fin 0.8)].

Definition arrhenius_table : list oxidation_row :=
  [OxidationRow "C" (Fin 80) (Fin 1) NaN].


(** A stand-in for scipy's [curve_fit]: it makes the checks scipy makes
    before it optimises (an empty sample raises [ValueError], fewer
    observations than parameters raise [TypeError]) and then answers with a
    fixed fit. *)
Definition curve_fit_checking {P : Type} (n_params : nat) (fitted : P)
    (xdata ydata : list float) : result P :=
  match ydata with
  | [] => Raise ValueError
  | _ => if (List.length xdata <? n_params)%nat then Raise TypeError
         else OK fitted
  end.

(** The same for the GAB fit, which is given an initial guess. *)
Definition curve_fit_gab_checking (xdata ydata : list float)
    (p0 : float * float * float) : result (float * float * float) :=
  curve_fit_checking 3 p0 xdata ydata.

(** A stand-in for an optimiser that exhausts its budget, and says so by
    [RuntimeError], on samples of fewer than four observations. *)
Definition curve_fit_gab_giving_up (xdata ydata : list float)
    (p0 : float * float * float) : result (float * float * float) :=
  if (List.length xdata <? 4)%nat then Raise RuntimeError else OK p0.

(** A stand-in for a scikit-learn metric that rejects its input. *)
Definition metric_raising (e : exn) (y_true y_pred : list float)
  : result float := Raise e.

(** A stand-in for a scikit-learn metric. *)
Definition metric_returning (v : R) (y_true y_pred : list float)
  : result float := OK (Fin v).

(** An oxidation sheet: three temperatures for "C", a single one for "D". *)
Definition oxidation_sheet : list OxidationFit.oxidation_measurement :=
  [ OxidationFit.OxidationMeasurement "C" (Fin 100) (Fin 12);
    OxidationFit.OxidationMeasurement "C" (Fin 110) (Fin 6);
    OxidationFit.OxidationMeasurement "C" (Fin 120) (Fin 3);
    OxidationFit.OxidationMeasurement "D" (Fin 110) (Fin 7) ].

(** Induction periods of one group: seven close readings and one far off,
    and a group of identical readings. *)
Definition outlier_group : list OxidationFit.oxidation_measurement :=
  map (fun ip => OxidationFit.OxidationMeasurement "C" (Fin 110) (Fin ip))
    [exp 1; exp 2; exp 3; exp 4; exp 5; exp 6; exp 7; exp 100].

(** The logarithms of the first group's readings. *)
Definition lns : list R := [1; 2; 3; 4; 5; 6; 7; 100].

Definition constant_group : list OxidationFit.oxidation_measurement :=
  map (fun ip => OxidationFit.OxidationMeasurement "C" (Fin 110) (Fin ip))
    [5; 5; 5; 5; 5; 5].

(** A moisture sheet: four observations for "C", two for "D". *)
Definition moisture_sheet : list MoistureFit.moisture_measurement :=
  [ MoistureFit.MoistureMeasurement "C" (Fin 0.2) (Fin 0.04);
    MoistureFit.MoistureMeasurement "C" (Fin 0.4) (Fin 0.06);
    MoistureFit.MoistureMeasurement "C" (Fin 0.6) (Fin 0.09);
    MoistureFit.MoistureMeasurement "C" (Fin 0.8) (Fin 0.17);
    MoistureFit.MoistureMeasurement "D" (Fin 0.3) (Fin 0.05);
    MoistureFit.MoistureMeasurement "D" (Fin 0.6) (Fin 0.08) ].

End Sample.

(** * Properties *)

(** ** Arithmetic of the extended reals on finite values *)

Section FloatFacts.

Local Open Scope R_scope.

Lemma Req_b_true (x y : R) : x = y -> Req_b x y = true.
Proof. intros H; unfold Req_b; destruct (Req_dec_T x y); [reflexivity | contradiction]. Qed.

Lemma Req_b_false (x y : R) : x <> y -> Req_b x y = false.
Proof. intros H; unfold Req_b; destruct (Req_dec_T x y); [contradiction | reflexivity]. Qed.

Lemma Rle_b_true (x y : R) : x <= y -> Rle_b x y = true.
Proof. intros H; unfold Rle_b; destruct (Rle_dec x y); [reflexivity | contradiction]. Qed.

Lemma Rle_b_false (x y : R) : y < x -> Rle_b x y = false.
Proof. intros H; unfold Rle_b; destruct (Rle_dec x y); [lra | reflexivity]. Qed.

Lemma Rlt_b_true (x y : R) : x < y -> Rlt_b x y = true.
Proof. intros H; unfold Rlt_b; destruct (Rlt_dec x y); [reflexivity | contradiction]. Qed.

Lemma Rlt_b_false (x y : R) : y <= x -> Rlt_b x y = false.
Proof. intros H; unfold Rlt_b; destruct (Rlt_dec x y); [lra | reflexivity]. Qed.

Lemma fdiv_Fin (x y : R) : y <> 0 -> (Fin x / Fin y)%fl = Fin (x / y).
Proof. intros H; unfold fdiv; rewrite (Req_b_false _ _ H); reflexivity. Qed.

Lemma fdiv_zero_zero : (Fin 0 / Fin 0)%fl = NaN.
Proof. unfold fdiv; rewrite !Req_b_true; reflexivity. Qed.

Lemma truediv_Fin (x y : R) : y <> 0 -> truediv (Fin x) (Fin y) = OK (Fin (x / y)).
Proof.
  intros H; unfold truediv; rewrite (Req_b_false _ _ H), (fdiv_Fin _ _ H).
  reflexivity.
Qed.

Lemma fle_Fin_true (x y : R) : x <= y -> (Fin x <=? Fin y)%fl = true.
Proof. intros H; unfold fle; now apply Rle_b_true. Qed.

Lemma fle_Fin_false (x y : R) : y < x -> (Fin x <=? Fin y)%fl = false.
Proof. intros H; unfold fle; now apply Rle_b_false. Qed.

Lemma isnan_false_iff (a : float) : isnan a = false <-> a <> NaN.
Proof. destruct a; simpl; split; congruence. Qed.

End FloatFacts.

(** ** The GAB isotherm and the moisture pathway *)

Section Moisture.

Local Open Scope R_scope.
Import CombinedModel Spec.

Lemma gab_model_Fin (aw W_m C K : R) :
  M_defined C K aw ->
  gab_model (Fin aw) (Fin W_m) (Fin C) (Fin K) = Fin (M W_m C K aw).
Proof.
  intros H. unfold gab_model, M. cbn [fmul fsub fadd fneg].
  rewrite fdiv_Fin; [reflexivity | exact H].
Qed.

Lemma predict_shelf_life_moisture_Fin (W_m C K W_s A WVTR aw_c aw_0 : R) :
  A * WVTR <> 0 -> M_defined C K aw_c -> M_defined C K aw_0 ->
  predict_shelf_life_moisture (Fin W_m) (Fin C) (Fin K)
    (Fin W_s) (Fin A) (Fin WVTR) (Fin aw_c) (Fin aw_0)
  = OK (Fin (moisture_shelf_life W_m C K W_s A WVTR aw_c aw_0)).
Proof.
  intros HA Hc H0. unfold predict_shelf_life_moisture.
  rewrite !gab_model_Fin by assumption.
  cbn [fmul]. rewrite truediv_Fin by assumption.
  reflexivity.
Qed.

(** C9: on finite parameters and scenario constants for which the formula
    is defined, the moisture-pathway shelf life the program computes is
    [(W_s / (A WVTR)) (M(a_w_c) - M(a_w_0))] with [M] the GAB isotherm;
    [M(0.5)] with [W_m = 0.05], [C = 10], [K = 0.8] is [0.2 / (0.6 * 4.6)];
    and [M(0) = 0] whatever the parameters. *)
Theorem moisture_shelf_life_formula :
  (forall W_m C K W_s A WVTR aw_c aw_0 : R,
      A * WVTR <> 0 -> M_defined C K aw_c -> M_defined C K aw_0 ->
      predict_shelf_life_moisture (Fin W_m) (Fin C) (Fin K)
        (Fin W_s) (Fin A) (Fin WVTR) (Fin aw_c) (Fin aw_0)
      = OK (Fin (W_s / (A * WVTR) * (M W_m C K aw_c - M W_m C K aw_0))))
  /\ (forall W_m C K aw : R,
         M W_m C K aw
         = W_m * C * K * aw / ((1 - K * aw) * (1 - K * aw + C * K * aw)))
  /\ gab_model (Fin 0.5) (Fin 0.05) (Fin 10) (Fin 0.8) = Fin (0.2 / (0.6 * 4.6))
  /\ (forall W_m C K : R,
         gab_model (Fin 0) (Fin W_m) (Fin C) (Fin K) = Fin 0).
Proof.
  split; [| split; [| split]].
  - intros. now apply predict_shelf_life_moisture_Fin.
  - reflexivity.
  - rewrite gab_model_Fin.
    + f_equal. unfold M. lra.
    + unfold M_defined. lra.
  - intros. rewrite gab_model_Fin.
    + f_equal. unfold M, Rdiv. ring.
    + unfold M_defined. lra.
Qed.

Lemma moisture_shelf_life_formula_witness :
  0.1 * 0.5 <> 0 /\ M_defined 10 0.8 0.6 /\ M_defined 10 0.8 0.3 /\
  predict_shelf_life_moisture (Fin 0.05) (Fin 10) (Fin 0.8)
    (Fin 200) (Fin 0.1) (Fin 0.5) (Fin 0.6) (Fin 0.3)
  = OK (Fin (200 / (0.1 * 0.5) * (M 0.05 10 0.8 0.6 - M 0.05 10 0.8 0.3))).
Proof.
  assert (H1 : 0.1 * 0.5 <> 0) by lra.
  assert (H2 : M_defined 10 0.8 0.6) by (unfold M_defined; lra).
  assert (H3 : M_defined 10 0.8 0.3) by (unfold M_defined; lra).
  refine (conj H1 (conj H2 (conj H3 _))).
  exact (proj1 moisture_shelf_life_formula
           0.05 10 0.8 200 0.1 0.5 0.6 0.3 H1 H2 H3).
Defined.

End Moisture.

(** ** The water-activity table *)

Section Lookup.

Import CombinedModel.
Local Open Scope string_scope.

Lemma str_in_In (s : string) (l : list string) : str_in s l = true <-> In s l.
Proof.
  unfold str_in. rewrite existsb_exists. split.
  - intros [x [Hx E]]. apply String.eqb_eq in E. now subst.
  - intros H. exists s. split; [assumption | apply String.eqb_refl].
Qed.

Lemma str_in_not_In (s : string) (l : list string) :
  str_in s l = false <-> ~ In s l.
Proof.
  rewrite <- str_in_In. destruct (str_in s l); split; congruence.
Qed.

Lemma get_aw_values_fallback (category : string) :
  ~ In category (map fst CATEGORY_MAP) ->
  get_aw_values category = (Fin 0.5%R, Fin 0.3%R).
Proof.
  intros H. unfold get_aw_values.
  assert (H1 : ~ In category ["C"; "D"; "P"; "S"])
    by (intros H1; apply H; simpl in *; intuition).
  assert (H2 : ~ In category ["D"; "S"])
    by (intros H2; apply H; simpl in *; intuition).
  apply str_in_not_In in H1, H2. now rewrite H1, H2.
Qed.

(** C8: the critical water activity is 0.6 for the codes C, D, P and S and
    0.5 for every other code; the initial water activity is 0.4 for D and S
    and 0.3 for every other code.  So "D" gives (0.6, 0.4), "O" gives
    (0.5, 0.3), and a code outside the enumeration gives the fallback
    (0.5, 0.3). *)
Theorem get_aw_values_table (category : string) :
  (In category ["C"; "D"; "P"; "S"] ->
   fst (get_aw_values category) = Fin 0.6%R)
  /\ (~ In category ["C"; "D"; "P"; "S"] ->
      fst (get_aw_values category) = Fin 0.5%R)
  /\ (In category ["D"; "S"] -> snd (get_aw_values category) = Fin 0.4%R)
  /\ (~ In category ["D"; "S"] -> snd (get_aw_values category) = Fin 0.3%R)
  /\ get_aw_values "D" = (Fin 0.6%R, Fin 0.4%R)
  /\ get_aw_values "O" = (Fin 0.5%R, Fin 0.3%R)
  /\ (~ In category (map fst CATEGORY_MAP) ->
      get_aw_values category = (Fin 0.5%R, Fin 0.3%R)).
Proof.
  unfold get_aw_values.
  repeat split.
  - intros H. apply str_in_In in H. cbn [fst]. now rewrite H.
  - intros H. apply str_in_not_In in H. cbn [fst]. now rewrite H.
  - intros H. apply str_in_In in H. cbn [snd]. now rewrite H.
  - intros H. apply str_in_not_In in H. cbn [snd]. now rewrite H.
  - apply get_aw_values_fallback.
Qed.

Lemma get_aw_values_table_witness :
  In "S" ["C"; "D"; "P"; "S"] /\ In "S" ["D"; "S"]
  /\ ~ In "X" (map fst CATEGORY_MAP)
  /\ fst (get_aw_values "S") = Fin 0.6%R
  /\ snd (get_aw_values "S") = Fin 0.4%R
  /\ get_aw_values "X" = (Fin 0.5%R, Fin 0.3%R).
Proof.
  assert (H1 : In "S" ["C"; "D"; "P"; "S"]) by (simpl; auto).
  assert (H2 : In "S" ["D"; "S"]) by (simpl; auto).
  assert (H3 : ~ In "X" (map fst CATEGORY_MAP))
    by (simpl; intuition discriminate).
  refine (conj H1 (conj H2 (conj H3 (conj _ (conj _ _))))).
  - exact (proj1 (get_aw_values_table "S") H1).
  - exact (proj1 (proj2 (proj2 (get_aw_values_table "S"))) H2).
  - exact (proj2 (proj2 (proj2 (proj2 (proj2 (proj2
             (get_aw_values_table "X")))))) H3).
Defined.

End Lookup.

(** ** The fusion rule *)

Section Fusion.

Import CombinedModel Spec.
Local Open Scope string_scope.

Lemma iloc0_filter_find {A : Type} (p : A -> bool) (l : list A) :
  iloc0 (filter p l) = match find p l with
                       | Some a => OK a
                       | None => Raise IndexError
                       end.
Proof.
  induction l as [|a l IH]; simpl; [reflexivity|].
  destruct (p a); [reflexivity | exact IH].
Qed.

Lemma str_in_find {A : Type} (key : A -> string) (c : string) (l : list A) :
  str_in c (map key l) = true <->
  exists a, find (fun r => String.eqb (key r) c) l = Some a.
Proof.
  unfold str_in. induction l as [|a l IH]; simpl.
  - split; [discriminate | intros [a H]; discriminate].
  - rewrite (String.eqb_sym c (key a)).
    destruct (String.eqb (key a) c); simpl.
    + split; [intros _; now exists a | reflexivity].
    + exact IH.
Qed.

Lemma str_in_find_none {A : Type} (key : A -> string) (c : string)
    (l : list A) :
  str_in c (map key l) = false <->
  find (fun r => String.eqb (key r) c) l = None.
Proof.
  pose proof (str_in_find key c l) as H.
  destruct (str_in c (map key l)), (find _ l) eqn:E; split; intros H';
    try congruence.
  - destruct (proj1 H eq_refl); discriminate.
  - assert (false = true) by (apply H; now eexists). discriminate.
Qed.

(** The function reads each table once and then applies the selection
    rule to the two pathway values. *)
Lemma predict_shelf_life_combined_pathways category mdf odf T W_s A WVTR :
  predict_shelf_life_combined category mdf odf T W_s A WVTR
  = (m <- moisture_pathway category mdf W_s A WVTR ;;
     OK (dominant m (oxidation_pathway category odf T))).
Proof.
  unfold predict_shelf_life_combined, moisture_pathway, moisture_pathway_at,
    oxidation_pathway, moisture_params, oxidation_params.
  rewrite !iloc0_filter_find.
  destruct (str_in category (map mr_category mdf)) eqn:Em.
  - apply str_in_find in Em. destruct Em as [mr Em]. rewrite Em.
    cbn [bind].
    destruct (str_in category (map or_category odf)) eqn:Eo.
    + apply str_in_find in Eo. destruct Eo as [orow Eo]. rewrite Eo.
      cbn [bind]. destruct (get_aw_values category) as [aw_c aw_0].
      cbn [fst snd].
      destruct (isnan (mr_W_m mr)); cbn [negb bind];
        [| destruct (predict_shelf_life_moisture _ _ _ _ _ _ _ _);
           cbn [bind]; [|reflexivity]];
        unfold dominant;
        destruct (isnan (or_e_a orow)); cbn [negb isnan andb];
        repeat match goal with
               | |- context [if ?b then _ else _] => destruct b
               end; reflexivity.
    + apply str_in_find_none in Eo. rewrite Eo.
      cbn [bind]. destruct (get_aw_values category) as [aw_c aw_0].
      cbn [fst snd].
      destruct (isnan (mr_W_m mr)); cbn [negb bind isnan];
        [| destruct (predict_shelf_life_moisture _ _ _ _ _ _ _ _);
           cbn [bind]; [|reflexivity]];
        unfold dominant; cbn [negb isnan andb];
        repeat match goal with
               | |- context [if ?b then _ else _] => destruct b
               end; reflexivity.
  - apply str_in_find_none in Em. rewrite Em. cbn [bind].
    destruct (str_in category (map or_category odf)) eqn:Eo.
    + apply str_in_find in Eo. destruct Eo as [orow Eo]. rewrite Eo.
      cbn [bind]. destruct (get_aw_values category) as [aw_c aw_0].
      cbn [negb isnan bind]. unfold dominant.
      destruct (isnan (or_e_a orow)); cbn [negb isnan andb];
        repeat match goal with
               | |- context [if ?b then _ else _] => destruct b
               end; reflexivity.
    + apply str_in_find_none in Eo. rewrite Eo.
      cbn [bind]. destruct (get_aw_values category) as [aw_c aw_0].
      reflexivity.
Qed.

Lemma predict_shelf_life_oxidation_Fin (E_a k_0 T : R) :
  (T + 273.15 <> 0)%R -> (k_0 <> 0)%R ->
  predict_shelf_life_oxidation (Fin E_a) (Fin k_0) (Fin T)
  = Fin (oxidation_shelf_life E_a k_0 T).
Proof.
  intros HT Hk. unfold predict_shelf_life_oxidation, R_gas.
  cbn [isnan orb fadd fmul fneg].
  rewrite fdiv_Fin by lra. cbn [fexp fmul].
  rewrite fdiv_Fin.
  - rewrite fdiv_Fin by lra. reflexivity.
  - apply Rmult_integral_contrapositive_currified; [assumption|].
    apply Rgt_not_eq, exp_pos.
Qed.

Lemma dominant_Fin (x y : R) :
  dominant (Fin x) (Fin y)
  = (Fin (Rmin x y),
     if Rle_dec x y then "moisture gain" else "lipid oxidation").
Proof.
  unfold dominant. cbn [isnan negb andb]. unfold Rmin.
  destruct (Rle_dec x y) as [H|H].
  - now rewrite fle_Fin_true.
  - rewrite fle_Fin_false by lra. reflexivity.
Qed.

(** The specification's example: 120 days against 200 days. *)
Lemma dominant_example :
  dominant (Fin 120) (Fin 200) = (Fin 120%R, "moisture gain").
Proof.
  rewrite dominant_Fin. unfold Rmin.
  destruct (Rle_dec 120 200); [reflexivity | lra].
Qed.

Lemma moisture_unavailable_NaN category df W_s A WVTR :
  moisture_available category df = false ->
  moisture_pathway category df W_s A WVTR = OK NaN.
Proof.
  unfold moisture_available, moisture_pathway, moisture_pathway_at.
  destruct (moisture_params category df) as [r|]; [|reflexivity].
  destruct (isnan (mr_W_m r)); [reflexivity | discriminate].
Qed.

Lemma oxidation_unavailable_NaN category df T :
  oxidation_available category df = false ->
  oxidation_pathway category df T = NaN.
Proof.
  unfold oxidation_available, oxidation_pathway.
  destruct (oxidation_params category df) as [r|]; [|reflexivity].
  destruct (isnan (or_e_a r)); [reflexivity | discriminate].
Qed.

(** C1, as amended: when both pathways give a finite shelf life the
    function returns the smaller one with its mechanism, a tie going to
    "moisture gain"; when the fitted parameters of exactly one pathway are
    available and the value of that pathway is not NaN, it returns that
    value with that pathway's label, without any comparison; when neither
    is available it returns the sentinel with mechanism "none". *)
Theorem combined_selection category mdf odf T W_s A WVTR :
  let r := predict_shelf_life_combined category mdf odf T W_s A WVTR in
  let m := moisture_pathway category mdf W_s A WVTR in
  let o := oxidation_pathway category odf T in
  (forall x y : R, m = OK (Fin x) -> o = Fin y ->
     exists label,
       r = OK (Fin (Rmin x y), label)
       /\ ((x <= y)%R -> label = "moisture gain")
       /\ ((y < x)%R -> label = "lipid oxidation"))
  /\ (forall v : float,
        moisture_available category mdf = true ->
        oxidation_available category odf = false ->
        m = OK v -> isnan v = false ->
        r = OK (v, "moisture gain"))
  /\ (moisture_available category mdf = false ->
      oxidation_available category odf = true ->
      isnan o = false ->
      r = OK (o, "lipid oxidation"))
  /\ (moisture_available category mdf = false ->
      oxidation_available category odf = false ->
      r = OK (NaN, "none")).
Proof.
  intros r m o. subst r m o.
  rewrite predict_shelf_life_combined_pathways.
  split; [| split; [| split]].
  - intros x y Hm Ho. rewrite Hm, Ho. cbn [bind]. rewrite dominant_Fin.
    eexists. split; [reflexivity|].
    destruct (Rle_dec x y); split; intros; (reflexivity || lra).
  - intros v _ Ho Hm Hv.
    rewrite Hm, (oxidation_unavailable_NaN _ _ _ Ho). cbn [bind].
    unfold dominant. rewrite Hv. reflexivity.
  - intros Hm _ Ho.
    rewrite (moisture_unavailable_NaN _ _ _ _ _ Hm). cbn [bind].
    unfold dominant. rewrite Ho. reflexivity.
  - intros Hm Ho.
    rewrite (moisture_unavailable_NaN _ _ _ _ _ Hm),
      (oxidation_unavailable_NaN _ _ _ Ho).
    reflexivity.
Qed.

Lemma sample_moisture_pathway :
  moisture_pathway "C" Sample.gab_table (Fin 200) (Fin 0.1) (Fin 0.5)
  = OK (Fin (moisture_shelf_life 0.05 10 0.8 200 0.1 0.5 0.6 0.3)).
Proof.
  rewrite <- predict_shelf_life_moisture_Fin;
    [reflexivity | lra | unfold M_defined; lra | unfold M_defined; lra].
Qed.

Lemma sample_oxidation_pathway :
  oxidation_pathway "C" Sample.arrhenius_table (Fin 25)
  = Fin (oxidation_shelf_life 80 1 25).
Proof.
  rewrite <- predict_shelf_life_oxidation_Fin; [reflexivity | lra | lra].
Qed.

Lemma combined_selection_witness :
  (exists label,
      predict_shelf_life_combined "C" Sample.gab_table Sample.arrhenius_table
        (Fin 25) (Fin 200) (Fin 0.1) (Fin 0.5)
      = OK (Fin (Rmin (moisture_shelf_life 0.05 10 0.8 200 0.1 0.5 0.6 0.3)
                      (oxidation_shelf_life 80 1 25)), label))
  /\ predict_shelf_life_combined "C" Sample.gab_table []
       (Fin 25) (Fin 200) (Fin 0.1) (Fin 0.5)
     = OK (Fin (moisture_shelf_life 0.05 10 0.8 200 0.1 0.5 0.6 0.3),
           "moisture gain")
  /\ predict_shelf_life_combined "C" [] Sample.arrhenius_table
       (Fin 25) (Fin 200) (Fin 0.1) (Fin 0.5)
     = OK (Fin (oxidation_shelf_life 80 1 25), "lipid oxidation")
  /\ predict_shelf_life_combined "C" [] []
       (Fin 25) (Fin 200) (Fin 0.1) (Fin 0.5)
     = OK (NaN, "none").
Proof.
  refine (conj _ (conj _ (conj _ _))).
  - destruct (proj1 (combined_selection "C" Sample.gab_table
                       Sample.arrhenius_table
                       (Fin 25) (Fin 200) (Fin 0.1) (Fin 0.5))
                _ _ sample_moisture_pathway sample_oxidation_pathway)
      as [label [H _]].
    exists label. exact H.
  - exact (proj1 (proj2 (combined_selection "C" Sample.gab_table []
                           (Fin 25) (Fin 200) (Fin 0.1) (Fin 0.5)))
             _ eq_refl eq_refl sample_moisture_pathway eq_refl).
  - rewrite <- sample_oxidation_pathway.
    refine (proj1 (proj2 (proj2 (combined_selection "C" []
                                  Sample.arrhenius_table
                                  (Fin 25) (Fin 200) (Fin 0.1) (Fin 0.5))))
             eq_refl eq_refl _).
    rewrite sample_oxidation_pathway. reflexivity.
  - exact (proj2 (proj2 (proj2 (combined_selection "C" [] []
                                  (Fin 25) (Fin 200) (Fin 0.1) (Fin 0.5))))
             eq_refl eq_refl).
Defined.

Lemma truediv_OK (a b : float) :
  b <> Fin 0 -> truediv a b = OK (a / b)%fl.
Proof.
  intros H. unfold truediv. destruct b as [| s | y]; try reflexivity.
  rewrite Req_b_false; [reflexivity|]. intros E. apply H. now rewrite E.
Qed.




End Fusion.

(** ** Sign of the predictions *)

Section Sign.

Import CombinedModel Spec.
Local Open Scope R_scope.

(** The isotherm increases with the water activity on physically valid
    parameters. *)
Lemma M_increasing (W_m C K a1 a2 : R) :
  0 < W_m -> 0 < C -> 0 < K < 1 -> 0 <= a1 -> a1 <= a2 -> a2 <= 1 ->
  M W_m C K a1 <= M W_m C K a2.
Proof.
  intros HW HC [HK0 HK1] H1 H12 H2.
  assert (Hx1 : 0 <= K * a1 < 1) by nra.
  assert (Hx2 : 0 <= K * a2 < 1) by nra.
  set (x1 := K * a1) in *. set (x2 := K * a2) in *.
  assert (Hx12 : x1 <= x2) by (unfold x1, x2; nra).
  assert (P1 : 0 < 1 - x1 + C * x1) by nra.
  assert (P2 : 0 < 1 - x2 + C * x2) by nra.
  assert (D1 : 0 < (1 - x1) * (1 - x1 + C * x1)) by
    (apply Rmult_lt_0_compat; lra).
  assert (D2 : 0 < (1 - x2) * (1 - x2 + C * x2)) by
    (apply Rmult_lt_0_compat; lra).
  assert (E : forall a, M W_m C K a
                        = W_m * C * (K * a)
                          / ((1 - K * a) * (1 - K * a + C * (K * a)))).
  { intros a. unfold M. f_equal; [ring|]. f_equal. ring. }
  rewrite !E. fold x1 x2.
  apply Rminus_le. 
  replace (W_m * C * x1 / ((1 - x1) * (1 - x1 + C * x1))
           - W_m * C * x2 / ((1 - x2) * (1 - x2 + C * x2)))
    with (- (W_m * C * ((x2 - x1) * (1 + (C - 1) * (x1 * x2)))
             / (((1 - x1) * (1 - x1 + C * x1))
                * ((1 - x2) * (1 - x2 + C * x2)))))
    by (field; repeat split; lra).
  assert (N : 0 <= W_m * C * ((x2 - x1) * (1 + (C - 1) * (x1 * x2)))).
  { apply Rmult_le_pos; [nra|]. apply Rmult_le_pos; [lra|].
    assert (0 <= x1 * x2 < 1) by nra. nra. }
  assert (P : 0 < ((1 - x1) * (1 - x1 + C * x1))
                  * ((1 - x2) * (1 - x2 + C * x2)))
    by (apply Rmult_lt_0_compat; assumption).
  assert (Q : 0 <= W_m * C * ((x2 - x1) * (1 + (C - 1) * (x1 * x2)))
               / (((1 - x1) * (1 - x1 + C * x1))
                  * ((1 - x2) * (1 - x2 + C * x2)))).
  { unfold Rdiv. apply Rmult_le_pos; [exact N|].
    apply Rlt_le, Rinv_0_lt_compat, P. }
  lra.
Qed.

Lemma get_aw_values_ordered (category : string) :
  exists aw_c aw_0 : R,
    get_aw_values category = (Fin aw_c, Fin aw_0)
    /\ 0 <= aw_0 /\ aw_0 <= aw_c /\ aw_c <= 1.
Proof.
  unfold get_aw_values.
  destruct (str_in category _), (str_in category _);
    eexists; eexists; (split; [reflexivity | lra]).
Qed.

Lemma M_defined_valid (C K aw : R) :
  0 < C -> 0 < K < 1 -> 0 <= aw <= 1 -> M_defined C K aw.
Proof.
  intros HC HK Ha. unfold M_defined.
  assert (0 <= K * aw < 1) by nra.
  assert (0 < 1 - K * aw + C * K * aw) by nra.
  apply Rgt_not_eq, Rmult_lt_0_compat; lra.
Qed.

Lemma moisture_valid_nonneg (category : string) (W_m C K W_s A WVTR : R) :
  0 < W_m -> 0 < C -> 0 < K < 1 -> 0 < W_s -> 0 < A -> 0 < WVTR ->
  exists v : R,
    predict_shelf_life_moisture (Fin W_m) (Fin C) (Fin K)
      (Fin W_s) (Fin A) (Fin WVTR)
      (fst (get_aw_values category)) (snd (get_aw_values category))
    = OK (Fin v) /\ 0 <= v.
Proof.
  intros HW HC HK HWs HA HWV.
  destruct (get_aw_values_ordered category) as [c [c0 [E [H0 [H01 H1]]]]].
  rewrite E. cbn [fst snd].
  assert (HAW : 0 < A * WVTR) by (apply Rmult_lt_0_compat; assumption).
  rewrite predict_shelf_life_moisture_Fin;
    [| lra | apply M_defined_valid; (assumption || lra)
          | apply M_defined_valid; (assumption || lra)].
  eexists. split; [reflexivity|].
  unfold moisture_shelf_life. apply Rmult_le_pos.
  - apply Rlt_le, Rdiv_lt_0_compat; assumption.
  - pose proof (M_increasing W_m C K c0 c HW HC HK H0 H01 H1). lra.
Qed.

(** With fitted parameters within the data model's ranges and positive
    scenario constants, a category that has only moisture parameters gets a
    number of days and the label "moisture gain". *)
Lemma combined_moisture_only (category : string) (row : moisture_row)
    (mdf : list moisture_row) (odf : list oxidation_row)
    (T : float) (W_m C K W_s A WVTR : R) :
  moisture_params category mdf = Some row ->
  mr_W_m row = Fin W_m -> mr_C row = Fin C -> mr_K row = Fin K ->
  0 < W_m -> 0 < C -> 0 < K < 1 ->
  0 < W_s -> 0 < A -> 0 < WVTR ->
  oxidation_available category odf = false ->
  exists days : R,
    predict_shelf_life_combined category mdf odf T
      (Fin W_s) (Fin A) (Fin WVTR)
    = OK (Fin days, "moisture gain"%string).
Proof.
  intros Hrow EW EC EK HW HC HK HWs HA HWV Ho.
  rewrite predict_shelf_life_combined_pathways.
  rewrite (oxidation_unavailable_NaN _ _ _ Ho).
  unfold moisture_pathway, moisture_pathway_at.
  rewrite Hrow, EW, EC, EK. cbn [isnan].
  destruct (moisture_valid_nonneg category W_m C K W_s A WVTR
              HW HC HK HWs HA HWV) as [v [Ev _]].
  rewrite Ev. exists v. reflexivity.
Qed.

Lemma fexp_nonneg (a : float) : nonneg_or_unavailable (fexp a).
Proof.
  destruct a as [| [|] | x]; cbn; [now left | right | right | right]; cbn.
  - lra.
  - reflexivity.
  - apply Rlt_le, exp_pos.
Qed.


Lemma fdiv_one_nonneg (b : float) :
  nonneg_or_unavailable b -> nonneg_or_unavailable (Fin 1 / b)%fl.
Proof.
  intros [-> | Hb]; [now left|].
  destruct b as [| s | x]; cbn in Hb; [contradiction | subst s |].
  - right. cbn. lra.
  - right. destruct (Req_dec_T x 0) as [-> | Hx].
    + unfold fdiv. rewrite Req_b_true, Req_b_false, Rlt_b_false by lra.
      reflexivity.
    + rewrite fdiv_Fin by assumption. cbn.
      apply Rlt_le, Rdiv_lt_0_compat; lra.
Qed.

Lemma fdiv_24_nonneg (b : float) :
  nonneg_or_unavailable b -> nonneg_or_unavailable (b / Fin 24)%fl.
Proof.
  intros [-> | Hb]; [now left|].
  destruct b as [| s | x]; cbn in Hb; [contradiction | subst s |].
  - right. cbn [fdiv]. rewrite Rlt_b_false by lra. reflexivity.
  - right. rewrite fdiv_Fin by lra. cbn. lra.
Qed.







End Sign.

(** ** Arrhenius extrapolation *)

Section Arrhenius.

Import CombinedModel Spec.
Local Open Scope R_scope.

(** C4 fails as stated: with a zero activation energy, a pair without NaN,
    the predicted shelf life is the same [1/24] day at 25 and at 35 degrees
    Celsius. *)
Lemma oxidation_flat_zero_activation :
  25 < 35
  /\ predict_shelf_life_oxidation (Fin 0) (Fin 1) (Fin 25) = Fin (1 / 24)
  /\ predict_shelf_life_oxidation (Fin 0) (Fin 1) (Fin 35) = Fin (1 / 24).
Proof.
  assert (E : forall T, oxidation_shelf_life 0 1 T = 1 / 24).
  { intros T. unfold oxidation_shelf_life.
    replace (- 0 * 1000 / (8.314 * (T + 273.15))) with 0
      by (unfold Rdiv; ring).
    rewrite exp_0. lra. }
  split; [lra|].
  split; rewrite predict_shelf_life_oxidation_Fin by lra; now rewrite E.
Qed.

Lemma oxidation_shelf_life_decreasing (E_a k_0 T1 T2 : R) :
  0 < E_a -> 0 < k_0 -> -273.15 < T1 -> T1 < T2 ->
  oxidation_shelf_life E_a k_0 T2 < oxidation_shelf_life E_a k_0 T1.
Proof.
  intros HE Hk H1 H12. unfold oxidation_shelf_life.
  set (u1 := 8.314 * (T1 + 273.15)). set (u2 := 8.314 * (T2 + 273.15)).
  assert (Hu1 : 0 < u1) by (unfold u1; lra).
  assert (Hu12 : u1 < u2) by (unfold u1, u2; lra).
  assert (Hinv : / u2 < / u1) by (apply Rinv_0_lt_contravar; assumption).
  assert (Harg : - E_a * 1000 / u1 < - E_a * 1000 / u2)
    by (unfold Rdiv; nra).
  apply exp_increasing in Harg.
  pose proof (exp_pos (- E_a * 1000 / u1)) as P1.
  assert (Hk1 : 0 < k_0 * exp (- E_a * 1000 / u1))
    by (apply Rmult_lt_0_compat; assumption).
  assert (Hk12 : k_0 * exp (- E_a * 1000 / u1)
                 < k_0 * exp (- E_a * 1000 / u2))
    by (apply Rmult_lt_compat_l; assumption).
  apply Rinv_0_lt_contravar in Hk12; [| assumption].
  unfold Rdiv. lra.
Qed.

(** C4, as amended: for a positive activation energy and a positive
    pre-exponential factor, and storage temperatures above absolute zero,
    the predicted shelf life at the higher temperature is strictly smaller
    than at the lower one. *)
Theorem oxidation_decreasing_in_temperature (E_a k_0 T1 T2 : R) :
  0 < E_a -> 0 < k_0 -> -273.15 < T1 -> T1 < T2 ->
  exists d1 d2 : R,
    predict_shelf_life_oxidation (Fin E_a) (Fin k_0) (Fin T1) = Fin d1
    /\ predict_shelf_life_oxidation (Fin E_a) (Fin k_0) (Fin T2) = Fin d2
    /\ d2 < d1.
Proof.
  intros HE Hk H1 H12.
  exists (oxidation_shelf_life E_a k_0 T1), (oxidation_shelf_life E_a k_0 T2).
  rewrite !predict_shelf_life_oxidation_Fin by lra.
  repeat split. now apply oxidation_shelf_life_decreasing.
Qed.

Lemma oxidation_decreasing_in_temperature_witness :
  0 < 80 /\ 0 < 1 /\ -273.15 < 25 /\ 25 < 35
  /\ exists d1 d2 : R,
       predict_shelf_life_oxidation (Fin 80) (Fin 1) (Fin 25) = Fin d1
       /\ predict_shelf_life_oxidation (Fin 80) (Fin 1) (Fin 35) = Fin d2
       /\ d2 < d1.
Proof.
  assert (H1 : 0 < 80) by lra.
  assert (H2 : 0 < 1) by lra.
  assert (H3 : -273.15 < 25) by lra.
  assert (H4 : 25 < 35) by lra.
  refine (conj H1 (conj H2 (conj H3 (conj H4 _)))).
  exact (oxidation_decreasing_in_temperature 80 1 25 35 H1 H2 H3 H4).
Defined.

End Arrhenius.

(** ** Grouping by category *)

Section GroupByCategory.

Import PD.
Local Open Scope string_scope.

Context {A : Type} (key : A -> string).

Let category_keys := keys key (fun _ => true) String.eqb String.leb.

Lemma In_insert_key (k k' : string) (ks : list string) :
  In k' (insert_key String.eqb String.leb k ks) <-> k' = k \/ In k' ks.
Proof.
  induction ks as [|h t IH]; simpl.
  - intuition.
  - destruct (String.eqb k h) eqn:E.
    + apply String.eqb_eq in E. subst h. simpl. intuition.
    + destruct (String.leb k h); simpl; [intuition|].
      rewrite IH. intuition.
Qed.

Lemma In_keys_fold (df : list A) (acc : list string) (k : string) :
  In k (fold_left (fun acc r => if true then
                                  insert_key String.eqb String.leb (key r) acc
                                else acc) df acc)
  <-> In k acc \/ In k (map key df).
Proof.
  revert acc. induction df as [|r df IH]; intros acc; simpl.
  - intuition.
  - rewrite IH, In_insert_key. intuition.
Qed.

Lemma In_keys (df : list A) (k : string) :
  In k (category_keys df) <-> In k (map key df).
Proof.
  unfold category_keys, keys. rewrite In_keys_fold. simpl. intuition.
Qed.

Lemma existsb_keys (df : list A) (c : string) :
  existsb (String.eqb c) (category_keys df)
  = existsb (String.eqb c) (map key df).
Proof.
  apply eq_true_iff_eq. rewrite !existsb_exists.
  split; intros [k [Hk E]]; exists k; (split; [|exact E]);
    now apply In_keys.
Qed.

(** The row of a category in a table built group by group. *)
Lemma find_map_groupby {B : Type} (f : string -> list A -> B)
    (proj : B -> string) (df : list A) (c : string) :
  (forall k g, proj (f k g) = k) ->
  find (fun r => String.eqb (proj r) c)
    (map (fun kg => f (fst kg) (snd kg))
       (groupby key (fun _ => true) String.eqb String.leb df))
  = if existsb (String.eqb c) (map key df)
    then Some (f c (filter (fun r => String.eqb (key r) c) df))
    else None.
Proof.
  intros Hproj. rewrite <- existsb_keys. unfold groupby.
  fold (category_keys df). rewrite map_map. cbn [fst snd].
  induction (category_keys df) as [|k ks IH]; simpl; [reflexivity|].
  rewrite Hproj, (String.eqb_sym c k).
  destruct (String.eqb k c) eqn:E; simpl; [|exact IH].
  apply String.eqb_eq in E. now subst k.
Qed.

End GroupByCategory.

Lemma fold_left_append_map {A B : Type} (f : A -> B) (l : list A)
    (acc : list B) :
  fold_left (fun acc a => acc ++ [f a]) l acc = acc ++ map f l.
Proof.
  revert acc. induction l as [|a l IH]; intros acc; simpl.
  - now rewrite app_nil_r.
  - rewrite IH, <- app_assoc. reflexivity.
Qed.

(** ** The Arrhenius fitter *)

Section ArrheniusFitter.

Import CombinedModel OxidationFit Spec.
Local Open Scope R_scope.

Variable curve_fit : list float -> list float -> result (float * float).
Variables r2_score mean_squared_error mean_absolute_error :
  list float -> list float -> result float.

Let fit := fit_arrhenius_model curve_fit r2_score mean_squared_error
             mean_absolute_error.
Let row := ox_result curve_fit r2_score mean_squared_error
             mean_absolute_error.
Let table := ox_results curve_fit r2_score mean_squared_error
               mean_absolute_error.

Lemma fit_arrhenius_model_fitted (temps_C ips : list float) (a b : R) :
  let x := reciprocal_kelvin temps_C in
  let y := log_rate ips in
  let y_pred := map (fun xi => arrhenius_linear_model xi (Fin a) (Fin b)) x in
  curve_fit x y = OK (Fin a, Fin b) ->
  (exists v, r2_score y y_pred = OK v) ->
  (exists v, mean_squared_error y y_pred = OK v) ->
  (exists v, mean_absolute_error y y_pred = OK v) ->
  fit_Ea (fit temps_C ips) = Fin (- b * 8.314 / 1000)
  /\ fit_k_0 (fit temps_C ips) = Fin (exp a)
  /\ fit_IP_25 (fit temps_C ips) = Fin (exp (- (a + b / 298.15))).
Proof.
  intros x y y_pred Hfit [v1 H1] [v2 H2] [v3 H3].
  unfold fit, fit_arrhenius_model.
  fold (reciprocal_kelvin temps_C) (log_rate ips). fold x y.
  rewrite Hfit. cbn [bind]. fold y_pred. rewrite H1, H2, H3.
  cbn [bind except_Exception fit_Ea fit_k_0 fit_IP_25].
  unfold R_gas, T_25, arrhenius_linear_model. cbn [fneg fmul fexp].
  rewrite !fdiv_Fin by lra. cbn [fmul fadd fneg fexp].
  repeat split. do 2 f_equal. lra.
Qed.

Lemma fit_arrhenius_model_raised (temps_C ips : list float) (e : exn) :
  curve_fit (reciprocal_kelvin temps_C) (log_rate ips) = Raise e ->
  fit temps_C ips = fit_unavailable.
Proof.
  intros H. unfold fit, fit_arrhenius_model.
  fold (reciprocal_kelvin temps_C) (log_rate ips). now rewrite H.
Qed.

(** C7: when the least-squares fit returns the line
    [ln (1 / IP) = a + b (1 / T_K)], the fitter returns the activation energy
    [- b R / 1000] with [R = 8.314], the pre-exponential factor [exp a] and
    the induction period [exp (- (a + b / 298.15))] hours at 298.15 K, which
    the loop over the categories divides by 24 to write it in days. *)
Theorem arrhenius_parameters (category : string)
    (group : list oxidation_measurement) (a b : R) :
  let grouped := average_per_temperature group in
  let temps_C := map fst grouped in
  let ips := map snd grouped in
  let x := reciprocal_kelvin temps_C in
  let y := log_rate ips in
  let y_pred := map (fun xi => arrhenius_linear_model xi (Fin a) (Fin b)) x in
  curve_fit x y = OK (Fin a, Fin b) ->
  (exists v, r2_score y y_pred = OK v) ->
  (exists v, mean_squared_error y y_pred = OK v) ->
  (exists v, mean_absolute_error y y_pred = OK v) ->
  fit_Ea (fit temps_C ips) = Fin (- b * 8.314 / 1000)
  /\ fit_k_0 (fit temps_C ips) = Fin (exp a)
  /\ fit_IP_25 (fit temps_C ips) = Fin (exp (- (a + b / 298.15)))
  /\ row category group
     = OxidationRow category (Fin (- b * 8.314 / 1000)) (Fin (exp a))
         (Fin (exp (- (a + b / 298.15)) / 24)).
Proof.
  intros grouped temps_C ips x y y_pred Hfit H1 H2 H3.
  destruct (fit_arrhenius_model_fitted temps_C ips a b Hfit H1 H2 H3)
    as [HE [Hk HI]].
  refine (conj HE (conj Hk (conj HI _))).
  unfold row, ox_result. fold grouped. fold temps_C ips.
  fold (fit temps_C ips). rewrite HE, Hk, HI. cbn [isnan negb].
  rewrite fdiv_Fin by lra. reflexivity.
Qed.

Lemma ox_result_unavailable (category : string)
    (group : list oxidation_measurement) :
  fit (map fst (average_per_temperature group))
      (map snd (average_per_temperature group)) = fit_unavailable ->
  row category group = arrhenius_unavailable category.
Proof.
  intros H. unfold row, ox_result. fold (fit (map fst (average_per_temperature group))
      (map snd (average_per_temperature group))).
  rewrite H. reflexivity.
Qed.

Lemma ox_results_map (cleaned : list oxidation_measurement) :
  table cleaned
  = map (fun kg => row (fst kg) (snd kg))
      (PD.groupby category (fun _ => true) String.eqb String.leb cleaned).
Proof.
  unfold table, ox_results.
  now rewrite (fold_left_append_map (fun kg => row (fst kg) (snd kg))).
Qed.

(** C6: a category whose averaged sample has fewer than two temperature
    points (the least-squares routine rejecting an under-determined
    sample), or whose fit raises any exception, gets the "unavailable"
    parameters; and the table holds, for every category of the sheet, the
    row computed from that category's own measurements, whatever happens to
    the others. *)
Theorem arrhenius_failure_isolated :
  ((forall xs ys, (List.length xs < 2)%nat ->
                  exists e, curve_fit xs ys = Raise e) ->
   forall category group,
     (List.length (average_per_temperature group) < 2)%nat ->
     row category group = arrhenius_unavailable category)
  /\ (forall category group e,
         curve_fit
           (reciprocal_kelvin (map fst (average_per_temperature group)))
           (log_rate (map snd (average_per_temperature group))) = Raise e ->
         row category group = arrhenius_unavailable category)
  /\ (forall cleaned c,
         find (fun r => String.eqb (or_category r) c) (table cleaned)
         = if str_in c (map category cleaned)
           then Some (row c (filter (fun r => String.eqb (category r) c)
                               cleaned))
           else None).
Proof.
  split; [| split].
  - intros Hlib category group Hn.
    destruct (Hlib (reciprocal_kelvin (map fst (average_per_temperature group)))
                (log_rate (map snd (average_per_temperature group))))
      as [e He].
    { unfold reciprocal_kelvin. now rewrite !length_map. }
    apply ox_result_unavailable. now apply fit_arrhenius_model_raised with e.
  - intros category group e He.
    apply ox_result_unavailable. now apply fit_arrhenius_model_raised with e.
  - intros cleaned c. rewrite ox_results_map.
    apply (find_map_groupby category row or_category).
    reflexivity.
Qed.

End ArrheniusFitter.

(** ** Evaluating the model on concrete numbers *)

(** The comparisons of real constants are settled by [lra]. *)
Ltac real_tests :=
  repeat match goal with
    | |- context [Req_b ?x ?y] =>
        first [ rewrite (Req_b_true x y) by lra
              | rewrite (Req_b_false x y) by lra ]
    | |- context [Rle_b ?x ?y] =>
        first [ rewrite (Rle_b_true x y) by lra
              | rewrite (Rle_b_false x y) by lra ]
    | |- context [Rlt_b ?x ?y] =>
        first [ rewrite (Rlt_b_true x y) by lra
              | rewrite (Rlt_b_false x y) by lra ]
    end.

Section ArrheniusFitterInstances.

Import CombinedModel OxidationFit Spec.
Local Open Scope string_scope.
Local Open Scope R_scope.

Lemma sample_average_per_temperature :
  average_per_temperature
    (filter (fun r => String.eqb (category r) "C") Sample.oxidation_sheet)
  = [(Fin 100, Fin 12); (Fin 110, Fin 6); (Fin 120, Fin 3)].
Proof.
  unfold average_per_temperature, PD.groupby, PD.keys, Sample.oxidation_sheet.
  repeat (progress (cbn [filter category String.eqb Ascii.eqb Bool.eqb
                          fold_left set_point_t ip_h isnan negb map fst snd
                          PD.insert_key feq fle PD.mean PD.np_sum fadd fdiv
                          List.length INR];
                    real_tests)).
  repeat f_equal; lra.
Qed.

Lemma arrhenius_parameters_witness :
  let curve_fit := Sample.curve_fit_checking 2 (Fin 19, Fin (- 8000)) in
  let metric := Sample.metric_returning 1 in
  let group := filter (fun r => String.eqb (category r) "C")
                 Sample.oxidation_sheet in
  ox_result curve_fit metric metric metric "C" group
  = OxidationRow "C" (Fin (- - 8000 * 8.314 / 1000)) (Fin (exp 19))
      (Fin (exp (- (19 + - 8000 / 298.15)) / 24)).
Proof.
  intros curve_fit metric group.
  refine (proj2 (proj2 (proj2
            (arrhenius_parameters curve_fit metric metric metric
               "C" group 19 (- 8000) _ _ _ _)))).
  - unfold group. rewrite sample_average_per_temperature. reflexivity.
  - eexists; reflexivity.
  - eexists; reflexivity.
  - eexists; reflexivity.
Defined.

Lemma curve_fit_checking_rejects {P : Type} (n : nat) (fitted : P)
    (xs ys : list float) :
  (List.length xs < n)%nat ->
  exists e, Sample.curve_fit_checking n fitted xs ys = Raise e.
Proof.
  intros H. unfold Sample.curve_fit_checking.
  destruct ys; [now eexists|].
  apply Nat.ltb_lt in H. rewrite H. now eexists.
Qed.

Lemma arrhenius_failure_isolated_witness :
  let curve_fit := Sample.curve_fit_checking 2 (Fin 19, Fin (- 8000)) in
  let metric := Sample.metric_returning 1 in
  let group := filter (fun r => String.eqb (category r) "D")
                 Sample.oxidation_sheet in
  (forall xs ys, (List.length xs < 2)%nat ->
                 exists e, curve_fit xs ys = Raise e)
  /\ (List.length (average_per_temperature group) < 2)%nat
  /\ ox_result curve_fit metric metric metric "D" group
     = arrhenius_unavailable "D".
Proof.
  intros curve_fit metric group.
  assert (H1 : forall xs ys, (List.length xs < 2)%nat ->
                             exists e, curve_fit xs ys = Raise e)
    by (intros; now apply curve_fit_checking_rejects).
  assert (H2 : (List.length (average_per_temperature group) < 2)%nat).
  { unfold average_per_temperature, PD.groupby. rewrite !length_map.
    cbn. lia. }
  refine (conj H1 (conj H2 _)).
  exact (proj1 (arrhenius_failure_isolated curve_fit metric metric metric)
           H1 "D" group H2).
Defined.

End ArrheniusFitterInstances.

(** ** The GAB fitter *)

Section GABFitter.

Import CombinedModel MoistureFit Spec.
Local Open Scope string_scope.

Variable curve_fit :
  list float -> list float -> float * float * float ->
  result (float * float * float).
Variables r2_score mean_squared_error mean_absolute_error :
  list float -> list float -> result float.

Let fit := fit_gab_model curve_fit.
Let row := gab_result curve_fit r2_score mean_squared_error
             mean_absolute_error.
Let loop := gab_loop curve_fit r2_score mean_squared_error
              mean_absolute_error.
Let table := gab_results curve_fit r2_score mean_squared_error
               mean_absolute_error.

Lemma loc_mask_valid (group : list moisture_measurement)
    (f : moisture_measurement -> float) :
  PD.loc_mask (map f group)
    (map (fun am => negb (isnan (fst am)) && negb (isnan (snd am)))
       (combine (map water_activity group) (map moisture_content group)))
  = map f (valid_observations group).
Proof.
  unfold PD.loc_mask, valid_observations.
  induction group as [|r group IH]; [reflexivity|].
  cbn [map combine filter fst snd].
  destruct (negb (isnan (water_activity r))
            && negb (isnan (moisture_content r)));
    cbn [map fst]; now rewrite IH.
Qed.

(** A convergence failure of the optimiser is caught: the category gets the
    "unavailable" parameters and the loop goes on. *)
Lemma gab_result_not_converged (category : string)
    (group : list moisture_measurement) :
  curve_fit (map water_activity (valid_observations group))
    (map moisture_content (valid_observations group)) init_params
  = Raise RuntimeError ->
  row category group = OK (gab_unavailable category).
Proof.
  intros H. unfold row, gab_result, fit_gab_model.
  rewrite !loc_mask_valid, H. reflexivity.
Qed.

(** Any other exception of the optimiser leaves the loop body. *)
Lemma gab_result_raised (category : string)
    (group : list moisture_measurement) (e : exn) :
  curve_fit (map water_activity (valid_observations group))
    (map moisture_content (valid_observations group)) init_params
  = Raise e ->
  e <> RuntimeError ->
  row category group = Raise e.
Proof.
  intros H He. unfold row, gab_result, fit_gab_model.
  rewrite !loc_mask_valid, H. destruct e; try reflexivity. contradiction.
Qed.

Lemma gab_loop_raised before category group after acc (e : exn) :
  (forall c g, In (c, g) before -> exists r, row c g = OK r) ->
  row category group = Raise e ->
  loop (before ++ (category, group) :: after)%list acc = Raise e.
Proof.
  revert acc. induction before as [|[c g] before IH]; intros acc Hb He.
  - cbn [app]. unfold loop. cbn [gab_loop]. fold row. now rewrite He.
  - cbn [app]. unfold loop. cbn [gab_loop]. fold row loop.
    destruct (Hb c g (or_introl eq_refl)) as [r Hr]. rewrite Hr.
    cbn [bind]. apply IH; [| exact He].
    intros c' g' H. apply Hb. now right.
Qed.

(** When no category raises anything but a convergence failure, the run
    ends with one row per category. *)
Lemma gab_loop_completes groups acc :
  (forall c g, In (c, g) groups -> exists r, row c g = OK r) ->
  exists rows,
    loop groups acc = OK (acc ++ rows)%list
    /\ List.length rows = List.length groups.
Proof.
  revert acc. induction groups as [|[c g] groups IH]; intros acc H.
  - exists []. split; [now rewrite app_nil_r | reflexivity].
  - destruct (H c g (or_introl eq_refl)) as [r Hr].
    destruct (IH (acc ++ [r])%list) as [rows [Hrows Hlen]].
    { intros c' g' Hin. apply H. now right. }
    exists (r :: rows). split.
    + unfold loop. cbn [gab_loop]. fold row loop. rewrite Hr. cbn [bind].
      rewrite Hrows, <- app_assoc. reflexivity.
    + cbn [List.length]. now rewrite Hlen.
Qed.

(** C5: an exception of the optimiser other than [RuntimeError], in any
    category, ends the whole run: no table is produced, although the
    categories before it were fitted. *)
Theorem gab_fit_failure_escalates (moisture_df : list moisture_measurement)
    before category group after (e : exn) :
  PD.groupby MoistureFit.category (fun _ => true) String.eqb String.leb
    moisture_df
  = (before ++ (category, group) :: after)%list ->
  (forall c g, In (c, g) before -> exists r, row c g = OK r) ->
  curve_fit (map water_activity (valid_observations group))
    (map moisture_content (valid_observations group)) init_params
  = Raise e ->
  e <> RuntimeError ->
  table moisture_df = Raise e.
Proof.
  intros Hg Hb Hfit He. unfold table, gab_results. rewrite Hg.
  apply (gab_loop_raised before category group after [] e Hb).
  now apply gab_result_raised.
Qed.

End GABFitter.

Section GABFitterInstances.

Import CombinedModel MoistureFit Spec.
Local Open Scope string_scope.
Local Open Scope R_scope.

Lemma sample_moisture_groups :
  PD.groupby MoistureFit.category (fun _ => true) String.eqb String.leb
    Sample.moisture_sheet
  = [("C", firstn 4 Sample.moisture_sheet);
     ("D", skipn 4 Sample.moisture_sheet)].
Proof. reflexivity. Qed.

Lemma gab_fit_failure_escalates_witness :
  let metric := Sample.metric_returning 1 in
  gab_results Sample.curve_fit_gab_checking metric metric metric
    Sample.moisture_sheet
  = Raise TypeError.
Proof.
  intros metric.
  refine (gab_fit_failure_escalates Sample.curve_fit_gab_checking
            metric metric metric Sample.moisture_sheet
            [("C", firstn 4 Sample.moisture_sheet)]
            "D" (skipn 4 Sample.moisture_sheet) [] TypeError
            _ _ _ _).
  - reflexivity.
  - intros c g [H | []]. injection H as <- <-. eexists. reflexivity.
  - reflexivity.
  - discriminate.
Defined.

End GABFitterInstances.

(** ** The outlier filter *)

Section OutlierFilter.

Import OxidationFit Spec.
Local Open Scope R_scope.

(** [Rsort] sorts: its result is ascending and holds the same values. *)
Lemma Rinsert_perm (x : R) (l : list R) : Permutation (Rinsert x l) (x :: l).
Proof.
  induction l as [|y l IH]; cbn [Rinsert]; [apply Permutation_refl|].
  destruct (Rle_dec x y); [apply Permutation_refl|].
  apply perm_trans with (y :: x :: l); [now apply perm_skip | apply perm_swap].
Qed.

Lemma Rsort_perm (l : list R) : Permutation (Rsort l) l.
Proof.
  unfold Rsort. induction l as [|x l IH]; cbn [fold_right]; [constructor|].
  apply perm_trans with (x :: fold_right Rinsert [] l);
    [apply Rinsert_perm | now apply perm_skip].
Qed.

Lemma Rinsert_sorted (x : R) (l : list R) :
  Sorted Rle l -> Sorted Rle (Rinsert x l).
Proof.
  induction l as [|y l IH]; intros H; cbn [Rinsert].
  - repeat constructor.
  - destruct (Rle_dec x y) as [Hxy|Hxy].
    + constructor; [assumption | now constructor].
    + apply Sorted_inv in H. destruct H as [Hs Hd].
      constructor; [now apply IH|].
      destruct l as [|z l]; cbn [Rinsert].
      * constructor. lra.
      * destruct (Rle_dec x z); constructor; [lra|].
        now apply HdRel_inv in Hd.
Qed.

Lemma Rsort_sorted (l : list R) : Sorted Rle (Rsort l).
Proof.
  unfold Rsort. induction l as [|x l IH]; cbn [fold_right];
    [constructor | now apply Rinsert_sorted].
Qed.

Lemma sort_Fin (l : list R) : PD.sort (map Fin l) = map Fin (Rsort l).
Proof.
  unfold PD.sort, Rsort.
  induction l as [|x l IH]; [reflexivity|].
  cbn [map fold_right]. rewrite IH. clear IH.
  induction (fold_right Rinsert [] l) as [|y s IH]; [reflexivity|].
  cbn [map PD.insert_sorted Rinsert fle]. unfold Rle_b.
  destruct (Rle_dec x y); [reflexivity|].
  cbn [map]. now rewrite IH.
Qed.

Lemma existsb_isnan_Fin (l : list R) : existsb isnan (map Fin l) = false.
Proof. induction l; [reflexivity | exact IHl]. Qed.

Lemma Rinsert_length (x : R) (l : list R) :
  List.length (Rinsert x l) = S (List.length l).
Proof.
  induction l as [|y l IH]; [reflexivity|].
  cbn [Rinsert]. destruct (Rle_dec x y); cbn [List.length]; congruence.
Qed.

Lemma Rsort_length (l : list R) : List.length (Rsort l) = List.length l.
Proof.
  unfold Rsort. induction l as [|x l IH]; [reflexivity|].
  cbn [fold_right]. rewrite Rinsert_length. cbn [List.length]. congruence.
Qed.

Lemma nth_Fin (i : nat) (s : list R) :
  (i < List.length s)%nat -> nth i (map Fin s) NaN = Fin (nth i s 0).
Proof.
  intros H. rewrite (nth_indep _ NaN (Fin 0)) by now rewrite length_map.
  apply map_nth.
Qed.

Lemma median_Fin (l : list R) :
  l <> [] -> PD.median (map Fin l) = Fin (Rmedian l).
Proof.
  intros Hl. unfold PD.median, Rmedian.
  rewrite existsb_isnan_Fin, sort_Fin, length_map.
  assert (Hn : (0 < List.length (Rsort l))%nat).
  { rewrite Rsort_length. destruct l; [contradiction | cbn; lia]. }
  destruct (List.length (Rsort l)) as [|n] eqn:E; [lia|].
  assert (H2 : (S n / 2 < S n)%nat) by (apply Nat.div_lt; lia).
  destruct (Nat.odd (S n)).
  - apply nth_Fin. lia.
  - rewrite !nth_Fin by lia. cbn [fadd]. now rewrite fdiv_Fin by lra.
Qed.

Lemma mad_Fin (l : list R) : l <> [] -> mad (map Fin l) = Fin (RMAD l).
Proof.
  intros Hl. unfold mad, RMAD. rewrite (median_Fin l Hl), map_map.
  rewrite <- (map_map (fun x => Rabs (x - Rmedian l)) Fin).
  apply median_Fin. destruct l; [contradiction | discriminate].
Qed.

Lemma robust_z_Fin (l : list R) :
  l <> [] ->
  robust_z (map Fin l)
  = if Req_dec_T (RMAD l) 0 then map (fun _ => Fin 0) l
    else map (fun x => Fin (robust_z_score l x)) l.
Proof.
  intros Hl. unfold robust_z. rewrite (median_Fin l Hl), (mad_Fin l Hl).
  cbn [feq]. unfold Req_b. rewrite !map_map.
  destruct (Req_dec_T (RMAD l) 0) as [E|E]; [reflexivity|].
  apply map_ext. intros x. cbn [fsub fneg fadd fmul].
  now rewrite fdiv_Fin by assumption.
Qed.

Lemma flog_Fin (l : list R) :
  Forall (fun x => 0 < x) l -> map flog (map Fin l) = map Fin (map ln l).
Proof.
  intros H. rewrite !map_map. apply map_ext_in. intros x Hx.
  rewrite Forall_forall in H. unfold flog. now rewrite Rlt_b_true by auto.
Qed.

Lemma loc_mask_all {A : Type} (df : list A) (mask : list bool) :
  List.length mask = List.length df -> Forall (fun b => b = true) mask ->
  PD.loc_mask df mask = df.
Proof.
  unfold PD.loc_mask. revert mask.
  induction df as [|a df IH]; intros [|b mask] Hlen Hall;
    try discriminate; [reflexivity|].
  inversion Hall; subst. cbn [combine filter snd map fst].
  f_equal. apply IH; [now injection Hlen | assumption].
Qed.

Lemma remove_outliers_empty (z_thresh : float) (min_n : Z) :
  remove_outliers [] z_thresh min_n = [].
Proof. unfold remove_outliers. now destruct (_ <? _)%Z. Qed.

Lemma remove_outliers_large (group : list oxidation_measurement)
    (ips : list R) (z_thresh : R) (min_n : Z) :
  map ip_h group = map Fin ips ->
  Forall (fun ip => 0 < ip) ips ->
  (min_n <= Z.of_nat (List.length group))%Z ->
  group <> [] ->
  remove_outliers group (Fin z_thresh) min_n
  = PD.loc_mask group
      (map (fun z => (fabs z <=? Fin z_thresh)%fl)
         (if Req_dec_T (RMAD (map ln ips)) 0
          then map (fun _ => Fin 0) (map ln ips)
          else map (fun x => Fin (robust_z_score (map ln ips) x))
                 (map ln ips))).
Proof.
  intros Hips Hpos Hbig Hne. unfold remove_outliers.
  apply Z.ltb_ge in Hbig. rewrite Hbig.
  rewrite <- (map_map ip_h flog), Hips, (flog_Fin ips Hpos).
  rewrite robust_z_Fin; [reflexivity|].
  destruct ips; [| discriminate].
  destruct group; [contradiction | discriminate].
Qed.

(** C2, as amended: on a group of positive induction periods, a group
    below the minimum size is returned as it is; otherwise, when the MAD of
    the logarithms is not zero, the observations dropped are exactly those
    whose robust z-score [0.6745 (x - median) / MAD] exceeds the threshold
    in absolute value, the others staying in their order; and when the MAD
    is exactly zero and the threshold is not negative, nothing is
    dropped. *)
Theorem remove_outliers_robust_z (group : list oxidation_measurement)
    (ips : list R) (z_thresh : R) (min_n : Z) :
  map ip_h group = map Fin ips ->
  Forall (fun ip => 0 < ip) ips ->
  let lns := map ln ips in
  ((Z.of_nat (List.length group) < min_n)%Z ->
   remove_outliers group (Fin z_thresh) min_n = group)
  /\ ((min_n <= Z.of_nat (List.length group))%Z -> RMAD lns <> 0 ->
      remove_outliers group (Fin z_thresh) min_n
      = PD.loc_mask group (map (fun ip => negb (flagged z_thresh lns ip)) ips))
  /\ ((min_n <= Z.of_nat (List.length group))%Z -> RMAD lns = 0 ->
      0 <= z_thresh ->
      remove_outliers group (Fin z_thresh) min_n = group).
Proof.
  intros Hips Hpos lns.
  split; [| split].
  - intros Hsmall. unfold remove_outliers.
    apply Z.ltb_lt in Hsmall. now rewrite Hsmall.
  - intros Hbig Hmad.
    destruct group as [|r group'] eqn:Eg;
      [now rewrite remove_outliers_empty|].
    rewrite <- Eg in *.
    rewrite (remove_outliers_large group ips z_thresh min_n Hips Hpos Hbig)
      by (rewrite Eg; discriminate).
    fold lns. destruct (Req_dec_T (RMAD lns) 0) as [E|_]; [contradiction|].
    f_equal. unfold lns. rewrite !map_map. apply map_ext. intros ip.
    cbn [fabs fle]. unfold flagged, Rle_b, Rlt_b.
    destruct (Rle_dec _ _), (Rlt_dec _ _); (reflexivity || lra).
  - intros Hbig Hmad Hthresh.
    destruct group as [|r group'] eqn:Eg;
      [now rewrite remove_outliers_empty|].
    rewrite <- Eg in *.
    rewrite (remove_outliers_large group ips z_thresh min_n Hips Hpos Hbig)
      by (rewrite Eg; discriminate).
    fold lns. destruct (Req_dec_T (RMAD lns) 0) as [_|E]; [|contradiction].
    apply loc_mask_all.
    + apply (f_equal (@List.length float)) in Hips.
      rewrite !length_map in Hips. unfold lns. now rewrite !length_map.
    + rewrite Forall_map, Forall_map, Forall_forall. intros x _.
      cbn [fabs fle]. rewrite Rabs_R0. now apply Rle_b_true.
Qed.

End OutlierFilter.

Section OutlierFilterInstances.

Import OxidationFit Spec.
Local Open Scope R_scope.

(** Sorting a list of real constants. *)
Ltac sort_reals :=
  unfold Rsort; cbn [fold_right Rinsert];
  repeat match goal with
    | |- context [Rle_dec ?a ?b] =>
        destruct (Rle_dec a b); [try lra | try lra]; cbn [Rinsert]
    end.

Lemma sample_lns_eq :
  map ln [exp 1; exp 2; exp 3; exp 4; exp 5; exp 6; exp 7; exp 100]
  = Sample.lns.
Proof. cbn [map]. now rewrite !ln_exp. Qed.

Lemma sample_median : Rmedian Sample.lns = 4.5.
Proof.
  unfold Rmedian, Sample.lns.
  replace (Rsort [1; 2; 3; 4; 5; 6; 7; 100]) with [1; 2; 3; 4; 5; 6; 7; 100]
    by (symmetry; sort_reals; reflexivity).
  cbn. lra.
Qed.

Ltac abs_reals :=
  repeat match goal with
    | |- context [Rabs ?x] =>
        first [ rewrite (Rabs_right x) by lra
              | rewrite (Rabs_left x) by lra ]
    end.

Lemma sample_MAD : RMAD Sample.lns = 2.
Proof.
  unfold RMAD. rewrite sample_median. unfold Rmedian, Sample.lns.
  cbn [map]. abs_reals. sort_reals. cbn. lra.
Qed.

Lemma sample_flagged (k : R) :
  flagged 3.5 Sample.lns (exp k)
  = Rlt_b 3.5 (Rabs (0.6745 * (k - 4.5) / 2)).
Proof.
  unfold flagged, robust_z_score.
  now rewrite ln_exp, sample_median, sample_MAD.
Qed.

Lemma constant_MAD : RMAD (map ln [5; 5; 5; 5; 5; 5]) = 0.
Proof.
  assert (Hm : Rmedian (map ln [5; 5; 5; 5; 5; 5]) = ln 5).
  { unfold Rmedian. cbn [map]. sort_reals. cbn. lra. }
  unfold RMAD. rewrite Hm. cbn [map].
  replace (ln 5 - ln 5) with 0 by lra. rewrite Rabs_R0.
  unfold Rmedian. sort_reals. cbn. lra.
Qed.

Lemma remove_outliers_robust_z_witness :
  remove_outliers (firstn 5 Sample.outlier_group) z_thresh_default
    min_n_default
  = firstn 5 Sample.outlier_group
  /\ remove_outliers Sample.outlier_group z_thresh_default min_n_default
     = firstn 7 Sample.outlier_group
  /\ remove_outliers Sample.constant_group z_thresh_default min_n_default
     = Sample.constant_group.
Proof.
  assert (P : forall k, 0 < exp k) by apply exp_pos.
  unfold z_thresh_default, min_n_default.
  refine (conj _ (conj _ _)).
  - refine (proj1 (remove_outliers_robust_z
                     (firstn 5 Sample.outlier_group)
                     [exp 1; exp 2; exp 3; exp 4; exp 5] 3.5 6 eq_refl _) _).
    + repeat constructor; apply P.
    + cbn. lia.
  - rewrite (proj1 (proj2 (remove_outliers_robust_z Sample.outlier_group
                     [exp 1; exp 2; exp 3; exp 4; exp 5; exp 6; exp 7; exp 100]
                     3.5 6 eq_refl
                     ltac:(repeat constructor; apply P)))).
    + rewrite sample_lns_eq. cbn [map]. rewrite !sample_flagged.
      abs_reals. real_tests. reflexivity.
    + cbn. lia.
    + rewrite sample_lns_eq, sample_MAD. lra.
  - refine (proj2 (proj2 (remove_outliers_robust_z Sample.constant_group
                            [5; 5; 5; 5; 5; 5] 3.5 6 eq_refl _)) _ _ _).
    + repeat constructor; lra.
    + cbn. lia.
    + apply constant_MAD.
    + lra.
Defined.

End OutlierFilterInstances.

(** ** Where the hypotheses are needed *)

Section Boundaries.

Import CombinedModel OxidationFit Spec.
Local Open Scope string_scope.
Local Open Scope R_scope.

(** C1 fails as stated: the moisture row below holds no NaN, so the
    parameters of the moisture pathway, and of it alone, are available; its
    isotherm is 0/0 at the critical water activity ([W_m = 0],
    [K a_w_c = 1]), the moisture value is NaN, and the function returns the
    label "none", not "moisture gain". *)
Lemma combined_zero_over_zero :
  moisture_available "F" [MoistureRow "F" (Fin 0) (Fin 1) (Fin 2)] = true
  /\ oxidation_available "F" [] = false
  /\ predict_shelf_life_combined "F"
       [MoistureRow "F" (Fin 0) (Fin 1) (Fin 2)] []
       (Fin 25) (Fin 200) (Fin 0.1) (Fin 0.5)
     = OK (NaN, "none").
Proof.
  split; [reflexivity | split; [reflexivity|]].
  rewrite predict_shelf_life_combined_pathways.
  unfold moisture_pathway, moisture_pathway_at, moisture_params.
  cbn [find mr_category String.eqb Ascii.eqb Bool.eqb mr_W_m mr_C mr_K
       isnan get_aw_values str_in existsb orb fst snd].
  unfold predict_shelf_life_moisture, gab_model.
  cbn [fmul fsub fadd fneg]. rewrite truediv_Fin by lra.
  unfold fdiv. real_tests. reflexivity.
Qed.

(** C2 fails as stated: six identical positive readings have a MAD of
    exactly zero, and with the threshold -1 every one of them is dropped
    (the z-scores are all zero, and zero exceeds the threshold). *)
Lemma remove_outliers_negative_threshold :
  Sample.constant_group <> []
  /\ (min_n_default <= Z.of_nat (List.length Sample.constant_group))%Z
  /\ RMAD (map ln [5; 5; 5; 5; 5; 5]) = 0
  /\ remove_outliers Sample.constant_group (Fin (- 1)) min_n_default = [].
Proof.
  unfold min_n_default.
  split; [discriminate | split; [cbn; lia | split; [apply constant_MAD|]]].
  assert (Hpos : Forall (fun ip => 0 < ip) [5; 5; 5; 5; 5; 5])
    by (repeat constructor; lra).
  rewrite (remove_outliers_large Sample.constant_group [5; 5; 5; 5; 5; 5]
             (- 1) 6 eq_refl Hpos);
    [| cbn; lia | discriminate].
  destruct (Req_dec_T _ 0) as [_|E]; [| destruct (E constant_MAD)].
  cbn [map fabs fle]. rewrite Rabs_R0. real_tests. reflexivity.
Qed.

End Boundaries.

(** ** The concrete examples in binary64 *)

Section Binary64Examples.

Import PrimFloat.
Local Open Scope float_scope.
#[local] Set Warnings "-inexact-float".

(** The specification's example holds to the last bit. *)
Lemma gab_model_example_binary64 :
  (Binary64.gab_model 0.5 0.05 10 0.8 =? 0.2 / (0.6 * 4.6)) = true.
Proof. reflexivity. Qed.

Lemma gab_model_zero_binary64 :
  (Binary64.gab_model 0 0.05 10 0.8 =? 0) = true.
Proof. reflexivity. Qed.

(** The fit with [K = 2] gives a negative shelf life in binary64 too. *)
Lemma shelf_life_negative_binary64 :
  (Binary64.predict_shelf_life_moisture 0.05 10 2 200 0.1 0.5 0.6 0.3
   <? -1485) = true.
Proof. reflexivity. Qed.

(** An isotherm that is 0/0 ([W_m = 0], [K a_w = 1]) is NaN in binary64
    too. *)
Lemma gab_model_zero_over_zero_binary64 :
  is_nan (Binary64.gab_model 0.5 0 1 2) = true.
Proof. reflexivity. Qed.

(** Rounding: two storage temperatures one unit in the last place apart
    have the same absolute temperature, hence the same predicted shelf
    life.  A strict inequality between predictions is one of exact
    values. *)
Lemma kelvin_rounding_binary64 :
  (25 <? 25.000000000000004) = true
  /\ (Binary64.kelvin 25 =? Binary64.kelvin 25.000000000000004) = true.
Proof. split; reflexivity. Qed.

End Binary64Examples.

(** * Further properties of the code *)

(** ** The outlier filter on arbitrary readings *)

Section OutlierFilterEdges.

Import OxidationFit Spec.
Local Open Scope R_scope.

Lemma loc_mask_subseq {A : Type} (df : list A) (mask : list bool) :
  subseq (PD.loc_mask df mask) df.
Proof.
  unfold PD.loc_mask. revert mask.
  induction df as [|a df IH]; intros mask; [constructor|].
  destruct mask as [|b mask]; cbn [combine filter map].
  - clear IH. constructor. induction df; constructor; assumption.
  - cbn [snd]. destruct b; cbn [map fst]; constructor; apply IH.
Qed.

Lemma subseq_refl {A : Type} (l : list A) : subseq l l.
Proof. induction l; constructor; assumption. Qed.

Lemma subseq_length {A : Type} (l1 l2 : list A) :
  subseq l1 l2 -> (List.length l1 <= List.length l2)%nat.
Proof. induction 1; cbn [List.length]; lia. Qed.

(** Whatever the readings, the threshold and the minimum size, the filter
    returns observations of the group, each at most once and in their
    order: it adds, repeats and reorders nothing. *)
Theorem remove_outliers_subseq (group : list oxidation_measurement)
    (z_thresh : float) (min_n : Z) :
  subseq (remove_outliers group z_thresh min_n) group
  /\ (List.length (remove_outliers group z_thresh min_n)
      <= List.length group)%nat.
Proof.
  assert (H : subseq (remove_outliers group z_thresh min_n) group).
  { unfold remove_outliers.
    destruct (_ <? _)%Z; [apply subseq_refl | apply loc_mask_subseq]. }
  split; [exact H | now apply subseq_length].
Qed.

Lemma unusable_reading_flog (ip : float) :
  unusable_reading ip -> flog ip = NaN.
Proof.
  intros [-> | [-> | [x [-> Hx]]]]; [reflexivity | reflexivity |].
  unfold flog. now rewrite Rlt_b_false, Req_b_false by lra.
Qed.

Lemma median_NaN (a : list float) : In NaN a -> PD.median a = NaN.
Proof.
  intros H. unfold PD.median.
  replace (existsb isnan a) with true; [reflexivity|].
  symmetry. apply existsb_exists. now exists NaN.
Qed.

Lemma loc_mask_none {A : Type} (df : list A) (mask : list bool) :
  Forall (fun b => b = false) mask -> PD.loc_mask df mask = [].
Proof.
  unfold PD.loc_mask. revert mask.
  induction df as [|a df IH]; intros [|b mask] H; try reflexivity.
  inversion H; subst. cbn [combine filter snd]. now apply IH.
Qed.

(** One reading without a logarithm (a missing or a negative induction
    period) in a group that has the minimum size empties the group: the
    median, the MAD and every z-score are NaN, and NaN passes no
    threshold. *)
Theorem remove_outliers_unusable_reading (group : list oxidation_measurement)
    (z_thresh : float) (min_n : Z) (r : oxidation_measurement) :
  (min_n <= Z.of_nat (List.length group))%Z ->
  In r group -> unusable_reading (ip_h r) ->
  remove_outliers group z_thresh min_n = [].
Proof.
  intros Hbig Hin Hr. unfold remove_outliers.
  apply Z.ltb_ge in Hbig. rewrite Hbig.
  set (ln_ip := map (fun r => flog (ip_h r)) group).
  assert (Hnan : In NaN ln_ip).
  { unfold ln_ip. rewrite <- (unusable_reading_flog _ Hr).
    now apply (in_map (fun r => flog (ip_h r))). }
  assert (Hmed : PD.median ln_ip = NaN) by now apply median_NaN.
  assert (Hmad : mad ln_ip = NaN).
  { unfold mad. rewrite Hmed. apply median_NaN.
    apply in_map_iff. exists NaN. split; [reflexivity | assumption]. }
  apply loc_mask_none. unfold robust_z. rewrite Hmed, Hmad.
  cbn [feq]. rewrite !Forall_map. apply Forall_forall. intros x _.
  destruct x as [| s | x]; reflexivity.
Qed.

Lemma remove_outliers_unusable_reading_witness :
  let group :=
    map (fun ip => OxidationMeasurement "C" (Fin 110) ip)
      [Fin 5; Fin 6; NaN; Fin 5; Fin 7; Fin 6] in
  (min_n_default <= Z.of_nat (List.length group))%Z
  /\ remove_outliers group z_thresh_default min_n_default = [].
Proof.
  intros group.
  assert (H : (min_n_default <= Z.of_nat (List.length group))%Z)
    by (unfold min_n_default; cbn; lia).
  refine (conj H _).
  refine (remove_outliers_unusable_reading group z_thresh_default
            min_n_default (OxidationMeasurement "C" (Fin 110) NaN) H _ _).
  - cbn. tauto.
  - now left.
Defined.

End OutlierFilterEdges.

(** ** The outlier filter and the unit of time *)

Section OutlierFilterScale.

Import OxidationFit Spec.
Local Open Scope R_scope.

Lemma Rinsert_shift (d x : R) (s : list R) :
  Rinsert (x + d) (map (fun y => y + d) s)
  = map (fun y => y + d) (Rinsert x s).
Proof.
  induction s as [|y s IH]; [reflexivity|].
  cbn [map Rinsert].
  destruct (Rle_dec (x + d) (y + d)), (Rle_dec x y); try lra.
  - reflexivity.
  - cbn [map]. now rewrite IH.
Qed.

Lemma Rsort_shift (d : R) (l : list R) :
  Rsort (map (fun y => y + d) l) = map (fun y => y + d) (Rsort l).
Proof.
  unfold Rsort. induction l as [|x l IH]; [reflexivity|].
  cbn [map fold_right]. now rewrite IH, Rinsert_shift.
Qed.

Lemma nth_shift (d : R) (i : nat) (s : list R) :
  (i < List.length s)%nat ->
  nth i (map (fun y => y + d) s) 0 = nth i s 0 + d.
Proof.
  intros H. rewrite (nth_indep _ 0 (0 + d)) by now rewrite length_map.
  apply (map_nth (fun y => y + d)).
Qed.

Lemma Rmedian_shift (d : R) (l : list R) :
  l <> [] -> Rmedian (map (fun y => y + d) l) = Rmedian l + d.
Proof.
  intros Hl. unfold Rmedian. rewrite Rsort_shift, length_map.
  assert (Hn : (0 < List.length (Rsort l))%nat).
  { rewrite Rsort_length. destruct l; [contradiction | cbn; lia]. }
  destruct (List.length (Rsort l)) as [|n] eqn:E; [lia|].
  assert (H2 : (S n / 2 < S n)%nat) by (apply Nat.div_lt; lia).
  destruct (Nat.odd (S n)).
  - apply nth_shift. lia.
  - rewrite !nth_shift by lia. lra.
Qed.

Lemma RMAD_shift (d : R) (l : list R) :
  l <> [] -> RMAD (map (fun y => y + d) l) = RMAD l.
Proof.
  intros Hl. unfold RMAD. rewrite (Rmedian_shift d l Hl), map_map.
  f_equal. apply map_ext. intros x. f_equal. lra.
Qed.

Lemma robust_z_score_shift (d x : R) (l : list R) :
  l <> [] ->
  robust_z_score (map (fun y => y + d) l) (x + d) = robust_z_score l x.
Proof.
  intros Hl. unfold robust_z_score.
  rewrite (Rmedian_shift d l Hl), (RMAD_shift d l Hl).
  f_equal. f_equal. lra.
Qed.

Lemma loc_mask_map {A B : Type} (f : A -> B) (df : list A)
    (mask : list bool) :
  PD.loc_mask (map f df) mask = map f (PD.loc_mask df mask).
Proof.
  unfold PD.loc_mask. revert mask.
  induction df as [|a df IH]; intros [|b mask]; try reflexivity.
  cbn [map combine filter snd]. destruct b; cbn [map fst]; now rewrite IH.
Qed.

(** Writing the induction periods of a group of positive readings in
    another unit of time (hours, days: a positive factor) changes nothing
    to the observations that are kept. *)
Theorem remove_outliers_rescaled (group : list oxidation_measurement)
    (ips : list R) (c z_thresh : R) (min_n : Z) :
  0 < c ->
  map ip_h group = map Fin ips ->
  Forall (fun ip => 0 < ip) ips ->
  remove_outliers (map (rescale c) group) (Fin z_thresh) min_n
  = map (rescale c) (remove_outliers group (Fin z_thresh) min_n).
Proof.
  intros Hc Hips Hpos.
  destruct (Z.ltb_spec (Z.of_nat (List.length group)) min_n) as [Hs|Hb].
  - unfold remove_outliers. rewrite length_map.
    apply Z.ltb_lt in Hs. now rewrite Hs.
  - destruct group as [|r0 group'] eqn:Eg.
    { now rewrite !remove_outliers_empty. }
    rewrite <- Eg in *.
    assert (Hne : group <> []) by (rewrite Eg; discriminate).
    assert (Hips' : map ip_h (map (rescale c) group)
                    = map Fin (map (fun x => x * c) ips)).
    { rewrite !map_map. cbn [rescale ip_h].
      rewrite <- (map_map ip_h (fun v => (v * Fin c)%fl)), Hips, map_map.
      reflexivity. }
    assert (Hpos' : Forall (fun ip => 0 < ip) (map (fun x => x * c) ips)).
    { rewrite Forall_map. revert Hpos. apply Forall_impl.
      intros x Hx. now apply Rmult_lt_0_compat. }
    assert (Hln : map ln (map (fun x => x * c) ips)
                  = map (fun y => y + ln c) (map ln ips)).
    { rewrite !map_map. apply map_ext_in. intros x Hx.
      rewrite Forall_forall in Hpos. apply ln_mult; auto. }
    assert (Hlns : map ln ips <> []).
    { destruct ips; [| discriminate].
      rewrite Eg in Hips. discriminate. }
    rewrite (remove_outliers_large (map (rescale c) group)
               (map (fun x => x * c) ips) z_thresh min_n Hips' Hpos')
      by (rewrite ?length_map; try assumption;
          rewrite Eg; discriminate).
    rewrite (remove_outliers_large group ips z_thresh min_n
               Hips Hpos Hb Hne).
    rewrite Hln, (RMAD_shift (ln c) _ Hlns), loc_mask_map.
    do 3 f_equal.
    destruct (Req_dec_T (RMAD (map ln ips)) 0).
    + now rewrite !map_map.
    + rewrite (map_map (fun y => y + ln c)). apply map_ext. intros y.
      now rewrite (robust_z_score_shift (ln c) y _ Hlns).
Qed.

Lemma remove_outliers_rescaled_witness :
  (0 < / 24)%R
  /\ remove_outliers (map (rescale (/ 24)) Sample.outlier_group)
       z_thresh_default min_n_default
     = map (rescale (/ 24))
         (remove_outliers Sample.outlier_group z_thresh_default
            min_n_default).
Proof.
  assert (Hc : 0 < / 24) by lra.
  refine (conj Hc _).
  refine (remove_outliers_rescaled Sample.outlier_group
            [exp 1; exp 2; exp 3; exp 4; exp 5; exp 6; exp 7; exp 100]
            (/ 24) 3.5 6 Hc eq_refl _).
  repeat constructor; apply exp_pos.
Defined.

End OutlierFilterScale.

(** ** The fusion function on arbitrary tables *)

Section FusionEdges.

Import CombinedModel Spec.
Local Open Scope string_scope.

Lemma dominant_none_iff (m o : float) :
  snd (dominant m o) = "none" <-> isnan (fst (dominant m o)) = true.
Proof.
  unfold dominant.
  destruct (isnan m) eqn:Em, (isnan o) eqn:Eo; cbn [negb andb].
  - cbn. tauto.
  - cbn [fst snd]. rewrite Eo. split; discriminate.
  - cbn [fst snd]. rewrite Em. split; discriminate.
  - destruct (m <=? o)%fl; cbn [fst snd]; rewrite ?Em, ?Eo;
      split; discriminate.
Qed.

(** The mechanism returned is "none" exactly when the shelf life returned
    is NaN: a prediction labelled with a mechanism is always a number (or an
    infinity), and the sentinel never carries a mechanism. *)
Theorem combined_none_iff_nan category mdf odf T W_s A WVTR
    (v : float) (label : string) :
  predict_shelf_life_combined category mdf odf T W_s A WVTR = OK (v, label) ->
  (label = "none" <-> isnan v = true).
Proof.
  rewrite predict_shelf_life_combined_pathways.
  destruct (moisture_pathway category mdf W_s A WVTR) as [m|e];
    cbn [bind]; [| discriminate].
  intros H. injection H as H.
  pose proof (dominant_none_iff m (oxidation_pathway category odf T)) as D.
  rewrite H in D. exact D.
Qed.

Lemma combined_none_iff_nan_witness :
  predict_shelf_life_combined "X" Sample.gab_table Sample.arrhenius_table
    T_default W_s_default A_default WVTR_default = OK (NaN, "none")
  /\ ("none" = "none" <-> isnan NaN = true).
Proof.
  assert (H : predict_shelf_life_combined "X" Sample.gab_table
                Sample.arrhenius_table
                T_default W_s_default A_default WVTR_default
              = OK (NaN, "none")) by reflexivity.
  refine (conj H _).
  exact (combined_none_iff_nan "X" Sample.gab_table Sample.arrhenius_table
           T_default W_s_default A_default WVTR_default NaN "none" H).
Defined.

Lemma find_app_first {A : Type} (p : A -> bool) (pre post : list A) (a : A) :
  (forall r, In r pre -> p r = false) -> p a = true ->
  find p (pre ++ a :: post) = Some a.
Proof.
  intros Hpre Ha. induction pre as [|r pre IH]; cbn [app find].
  - now rewrite Ha.
  - rewrite (Hpre r (or_introl eq_refl)). apply IH.
    intros r' Hr'. apply Hpre. now right.
Qed.

(** Only the first row of a category counts, in each table: rows of other
    categories before it and any row after it, repeated rows of the same
    category included, change nothing to the prediction. *)
Theorem combined_first_row_only category T W_s A WVTR
    (mrow : moisture_row) (mpre mpost : list moisture_row)
    (orow : oxidation_row) (opre opost : list oxidation_row) :
  mr_category mrow = category ->
  (forall r, In r mpre -> mr_category r <> category) ->
  or_category orow = category ->
  (forall r, In r opre -> or_category r <> category) ->
  predict_shelf_life_combined category
    (mpre ++ mrow :: mpost) (opre ++ orow :: opost) T W_s A WVTR
  = predict_shelf_life_combined category [mrow] [orow] T W_s A WVTR.
Proof.
  intros Hm Hmpre Ho Hopre.
  rewrite !predict_shelf_life_combined_pathways.
  unfold moisture_pathway, moisture_pathway_at, oxidation_pathway,
    moisture_params, oxidation_params.
  rewrite (find_app_first _ mpre mpost mrow),
    (find_app_first _ opre opost orow).
  - cbn [find]. rewrite Hm, Ho, String.eqb_refl. reflexivity.
  - intros r Hr. apply String.eqb_neq. now apply Hopre.
  - rewrite Ho. apply String.eqb_refl.
  - intros r Hr. apply String.eqb_neq. now apply Hmpre.
  - rewrite Hm. apply String.eqb_refl.
Qed.

Lemma combined_first_row_only_witness :
  predict_shelf_life_combined "C"
    ([MoistureRow "D" (Fin 1) (Fin 1) (Fin 1)]
       ++ MoistureRow "C" (Fin 0.05) (Fin 10) (Fin 0.8)
       :: [MoistureRow "C" NaN NaN NaN])
    ([] ++ OxidationRow "C" (Fin 80) (Fin 1) NaN
        :: [OxidationRow "C" (Fin 0) (Fin 0) NaN])
    T_default W_s_default A_default WVTR_default
  = predict_shelf_life_combined "C" Sample.gab_table Sample.arrhenius_table
      T_default W_s_default A_default WVTR_default.
Proof.
  refine (combined_first_row_only "C"
            T_default W_s_default A_default WVTR_default
            (MoistureRow "C" (Fin 0.05) (Fin 10) (Fin 0.8))
            [MoistureRow "D" (Fin 1) (Fin 1) (Fin 1)]
            [MoistureRow "C" NaN NaN NaN]
            (OxidationRow "C" (Fin 80) (Fin 1) NaN) []
            [OxidationRow "C" (Fin 0) (Fin 0) NaN] eq_refl _ eq_refl _).
  - intros r [<- | []]. discriminate.
  - intros r [].
Defined.

Lemma truediv_raises (a b : float) (e : exn) :
  truediv a b = Raise e <-> e = ZeroDivisionError /\ b = Fin 0.
Proof.
  unfold truediv. destruct b as [| s | y].
  - split; [discriminate | intros [_ H]; discriminate].
  - split; [discriminate | intros [_ H]; discriminate].
  - unfold Req_b. destruct (Req_dec_T y 0) as [-> | Hy].
    + split; [intros H; injection H as <-; now split | now intros [-> _]].
    + split; [discriminate|]. intros [_ H]. injection H as H. contradiction.
Qed.

(** The function raises in one case only: [ZeroDivisionError], when the
    moisture parameters of the category are available and [A * WVTR] is
    zero.  With no usable moisture row a zero area or WVTR goes
    unnoticed. *)
Theorem combined_raises_iff category mdf odf T W_s A WVTR (e : exn) :
  predict_shelf_life_combined category mdf odf T W_s A WVTR = Raise e
  <-> e = ZeroDivisionError
      /\ moisture_available category mdf = true
      /\ (A * WVTR)%fl = Fin 0.
Proof.
  rewrite predict_shelf_life_combined_pathways.
  unfold moisture_pathway, moisture_pathway_at, moisture_available.
  destruct (moisture_params category mdf) as [r|]; cbn [bind].
  - destruct (isnan (mr_W_m r)); cbn [negb bind].
    + split; [discriminate | intros [_ [H _]]; discriminate].
    + unfold predict_shelf_life_moisture.
      pose proof (truediv_raises W_s (A * WVTR)%fl e) as Hd.
      destruct (truediv W_s (A * WVTR)%fl) as [q|e']; cbn [bind].
      * split; [discriminate|]. intros [He [_ Hz]].
        destruct Hd as [_ Hd]. discriminate (Hd (conj He Hz)).
      * split.
        -- intros H. injection H as <-.
           destruct Hd as [Hd _]. destruct (Hd eq_refl) as [He Hz].
           now repeat split.
        -- intros [He [_ Hz]]. destruct Hd as [_ Hd].
           specialize (Hd (conj He Hz)). injection Hd as ->. reflexivity.
  - split; [discriminate | intros [_ [H _]]; discriminate].
Qed.

End FusionEdges.

(** ** The moisture pathway as a function of its arguments *)

Section MoistureShape.

Import CombinedModel Spec.
Local Open Scope R_scope.

(** The moisture shelf life is proportional to the dry weight and inversely
    proportional to the package area and to the WVTR. *)
Theorem moisture_shelf_life_proportional
    (W_m C K W_s A WVTR aw_c aw_0 c : R) :
  A * WVTR <> 0 -> c <> 0 ->
  M_defined C K aw_c -> M_defined C K aw_0 ->
  exists v : R,
    predict_shelf_life_moisture (Fin W_m) (Fin C) (Fin K)
      (Fin W_s) (Fin A) (Fin WVTR) (Fin aw_c) (Fin aw_0) = OK (Fin v)
    /\ predict_shelf_life_moisture (Fin W_m) (Fin C) (Fin K)
         (Fin (c * W_s)) (Fin A) (Fin WVTR) (Fin aw_c) (Fin aw_0)
       = OK (Fin (c * v))
    /\ predict_shelf_life_moisture (Fin W_m) (Fin C) (Fin K)
         (Fin W_s) (Fin (c * A)) (Fin WVTR) (Fin aw_c) (Fin aw_0)
       = OK (Fin (v / c))
    /\ predict_shelf_life_moisture (Fin W_m) (Fin C) (Fin K)
         (Fin W_s) (Fin A) (Fin (c * WVTR)) (Fin aw_c) (Fin aw_0)
       = OK (Fin (v / c)).
Proof.
  intros HA Hc Hdc Hd0.
  assert (HA' : A <> 0) by (intros ->; apply HA; ring).
  assert (HW' : WVTR <> 0) by (intros ->; apply HA; ring).
  exists (moisture_shelf_life W_m C K W_s A WVTR aw_c aw_0).
  rewrite !predict_shelf_life_moisture_Fin; try assumption.
  - unfold moisture_shelf_life. repeat split; do 2 f_equal; field;
      repeat split; assumption.
  - replace (A * (c * WVTR)) with (c * (A * WVTR)) by ring.
    now apply Rmult_integral_contrapositive_currified.
  - replace (c * A * WVTR) with (c * (A * WVTR)) by ring.
    now apply Rmult_integral_contrapositive_currified.
Qed.

Lemma moisture_shelf_life_proportional_witness :
  0.1 * 0.5 <> 0 /\ 2 <> 0
  /\ M_defined 10 0.8 0.6 /\ M_defined 10 0.8 0.3
  /\ exists v : R,
       predict_shelf_life_moisture (Fin 0.05) (Fin 10) (Fin 0.8)
         (Fin 200) (Fin 0.1) (Fin 0.5) (Fin 0.6) (Fin 0.3) = OK (Fin v)
       /\ predict_shelf_life_moisture (Fin 0.05) (Fin 10) (Fin 0.8)
            (Fin 200) (Fin 0.1) (Fin (2 * 0.5)) (Fin 0.6) (Fin 0.3)
          = OK (Fin (v / 2)).
Proof.
  assert (H1 : 0.1 * 0.5 <> 0) by lra.
  assert (H2 : 2 <> 0) by lra.
  assert (H3 : M_defined 10 0.8 0.6) by (unfold M_defined; lra).
  assert (H4 : M_defined 10 0.8 0.3) by (unfold M_defined; lra).
  refine (conj H1 (conj H2 (conj H3 (conj H4 _)))).
  destruct (moisture_shelf_life_proportional 0.05 10 0.8 200 0.1 0.5
              0.6 0.3 2 H1 H2 H3 H4) as [v [Hv [_ [_ Hw]]]].
  exists v. split; assumption.
Defined.




End MoistureShape.

(** ** The table of default predictions *)

Section DefaultTable.

Import CombinedModel Spec.
Local Open Scope string_scope.

Lemma combined_returns category mdf odf T W_s A WVTR :
  (A * WVTR)%fl <> Fin 0 ->
  exists v label,
    predict_shelf_life_combined category mdf odf T W_s A WVTR
    = OK (v, label).
Proof.
  intros HA. rewrite predict_shelf_life_combined_pathways.
  unfold moisture_pathway, moisture_pathway_at.
  destruct (moisture_params category mdf) as [row|];
    [| cbn [bind]; eexists; eexists; apply f_equal, surjective_pairing].
  destruct (isnan (mr_W_m row));
    [cbn [bind]; eexists; eexists; apply f_equal, surjective_pairing|].
  unfold predict_shelf_life_moisture. rewrite (truediv_OK _ _ HA).
  cbn [bind]. eexists; eexists; apply f_equal, surjective_pairing.
Qed.

Lemma default_predictions_loop_spec (items : list (string * string))
    (mdf : list moisture_row) (odf : list oxidation_row)
    (acc : list prediction_row) :
  exists rows,
    default_predictions_loop items mdf odf acc = OK (acc ++ rows)%list
    /\ map category_code rows = map fst items
    /\ map category_name rows = map snd items
    /\ Forall (fun r =>
                 predict_shelf_life_combined (category_code r) mdf odf
                   (Fin 25) (Fin 200) (Fin 0.1%R) (Fin 0.5%R)
                 = OK (shelf_life_pred_days r, dominant_model r)) rows.
Proof.
  revert acc. induction items as [|[cat name] items IH]; intros acc.
  - exists []. cbn. rewrite app_nil_r. repeat split. constructor.
  - destruct (combined_returns cat mdf odf (Fin 25) (Fin 200)
                (Fin 0.1%R) (Fin 0.5%R)) as [v [label Hr]].
    { cbn [fmul]. intros E. injection E. lra. }
    destruct (IH (acc ++ [PredictionRow cat name v label])%list)
      as [rows [Hloop [Hc [Hn Hall]]]].
    exists (PredictionRow cat name v label :: rows).
    cbn [default_predictions_loop]. rewrite Hr. cbn [bind].
    rewrite Hloop, <- app_assoc. cbn [app map category_code category_name
                                       fst snd].
    rewrite Hc, Hn. repeat split. constructor; assumption.
Qed.

(** Whatever the two parameter tables hold, the loop of [main] that fills
    the table of default predictions ends without an exception, with one
    row per category of [CATEGORY_MAP], in the order of the dictionary,
    each carrying the category's name and the prediction of
    [predict_shelf_life_combined] under the default scenario. *)
Theorem default_predictions_complete (mdf : list moisture_row)
    (odf : list oxidation_row) :
  exists rows,
    default_predictions mdf odf = OK rows
    /\ map category_code rows = ["C"; "D"; "F"; "O"; "P"; "S"; "W"]
    /\ map category_name rows = map snd CATEGORY_MAP
    /\ Forall (fun r =>
                 predict_shelf_life_combined (category_code r) mdf odf
                   (Fin 25) (Fin 200) (Fin 0.1%R) (Fin 0.5%R)
                 = OK (shelf_life_pred_days r, dominant_model r)) rows.
Proof.
  destruct (default_predictions_loop_spec CATEGORY_MAP mdf odf [])
    as [rows [Hloop [Hc [Hn Hall]]]].
  exists rows. repeat split; assumption.
Qed.

End DefaultTable.

(** ** From the Arrhenius fitter to the prediction *)

Section ArrheniusPipeline.

Import CombinedModel OxidationFit Spec.
Local Open Scope R_scope.

Variable curve_fit : list float -> list float -> result (float * float).
Variables r2_score mean_squared_error mean_absolute_error :
  list float -> list float -> result float.

Let fit := fit_arrhenius_model curve_fit r2_score mean_squared_error
             mean_absolute_error.
Let row := ox_result curve_fit r2_score mean_squared_error
             mean_absolute_error.
Let table := ox_results curve_fit r2_score mean_squared_error
               mean_absolute_error.

Lemma ox_result_fitted (category : string)
    (group : list oxidation_measurement) (a b : R) :
  let grouped := average_per_temperature group in
  let x := reciprocal_kelvin (map fst grouped) in
  let y := log_rate (map snd grouped) in
  let y_pred := map (fun xi => arrhenius_linear_model xi (Fin a) (Fin b)) x in
  curve_fit x y = OK (Fin a, Fin b) ->
  (exists v, r2_score y y_pred = OK v) ->
  (exists v, mean_squared_error y y_pred = OK v) ->
  (exists v, mean_absolute_error y y_pred = OK v) ->
  row category group
  = OxidationRow category (Fin (- b * 8.314 / 1000)) (Fin (exp a))
      (Fin (exp (- (a + b / 298.15)) / 24)).
Proof.
  intros grouped x y y_pred Hfit H1 H2 H3.
  destruct (fit_arrhenius_model_fitted curve_fit r2_score mean_squared_error
              mean_absolute_error (map fst grouped) (map snd grouped) a b
              Hfit H1 H2 H3) as [HE [Hk HI]].
  unfold row, ox_result. fold grouped. rewrite HE, Hk, HI.
  cbn [isnan negb]. rewrite fdiv_Fin by lra. reflexivity.
Qed.

Lemma arrhenius_exponent (a b T_K : R) :
  T_K <> 0 ->
  1 / (exp a * exp (- (- b * 8.314 / 1000) * 1000 / (8.314 * T_K))) / 24
  = exp (- (a + b / T_K)) / 24.
Proof.
  intros HT.
  replace (- (- b * 8.314 / 1000) * 1000 / (8.314 * T_K)) with (b / T_K)
    by (field; split; lra).
  rewrite <- exp_plus, exp_Ropp. unfold Rdiv. now rewrite Rmult_1_l.
Qed.

(** The two scripts agree: the activation energy and the pre-exponential
    factor written by the fitter, given to [predict_shelf_life_oxidation],
    give back the fitted line, [exp (- (a + b / T_K)) / 24] days at every
    temperature but absolute zero; at 25 degrees Celsius this is the
    [ip_days_25c] the fitter wrote in the same row. *)
Theorem fitted_row_predicts_fitted_line (category : string)
    (group : list oxidation_measurement) (a b T : R) :
  let grouped := average_per_temperature group in
  let x := reciprocal_kelvin (map fst grouped) in
  let y := log_rate (map snd grouped) in
  let y_pred := map (fun xi => arrhenius_linear_model xi (Fin a) (Fin b)) x in
  curve_fit x y = OK (Fin a, Fin b) ->
  (exists v, r2_score y y_pred = OK v) ->
  (exists v, mean_squared_error y y_pred = OK v) ->
  (exists v, mean_absolute_error y y_pred = OK v) ->
  T + 273.15 <> 0 ->
  predict_shelf_life_oxidation (or_e_a (row category group))
    (or_k_0 (row category group)) (Fin T)
  = Fin (exp (- (a + b / (T + 273.15))) / 24)
  /\ predict_shelf_life_oxidation (or_e_a (row category group))
       (or_k_0 (row category group)) (Fin 25)
     = or_ip_days_25c (row category group).
Proof.
  intros grouped x y y_pred Hfit H1 H2 H3 HT.
  rewrite (ox_result_fitted category group a b Hfit H1 H2 H3).
  cbn [or_e_a or_k_0 or_ip_days_25c].
  assert (Hk : exp a <> 0) by apply Rgt_not_eq, exp_pos.
  split.
  - rewrite predict_shelf_life_oxidation_Fin by assumption.
    unfold oxidation_shelf_life. now rewrite arrhenius_exponent.
  - rewrite predict_shelf_life_oxidation_Fin by (assumption || lra).
    unfold oxidation_shelf_life. rewrite arrhenius_exponent by lra.
    do 4 f_equal. lra.
Qed.

Lemma fmul_nonneg (a b : float) :
  nonneg_or_unavailable a -> nonneg_or_unavailable b ->
  nonneg_or_unavailable (a * b)%fl.
Proof.
  intros [-> | Ha]; [now left|].
  intros [-> | Hb]; [left; now destruct a|].
  destruct a as [| s | x], b as [| t | y]; cbn in Ha, Hb;
    try contradiction; subst.
  - right. reflexivity.
  - destruct (Req_dec_T y 0) as [-> | Hy].
    + left. cbn [fmul]. now rewrite Req_b_true.
    + right. cbn [fmul]. rewrite Req_b_false, Rlt_b_false by lra.
      reflexivity.
  - destruct (Req_dec_T x 0) as [-> | Hx].
    + left. cbn [fmul]. now rewrite Req_b_true.
    + right. cbn [fmul]. rewrite Req_b_false, Rlt_b_false by lra.
      reflexivity.
  - right. cbn. now apply Rmult_le_pos.
Qed.

Lemma oxidation_nonneg_k (E_a k_0 T : float) :
  nonneg_or_unavailable k_0 ->
  nonneg_or_unavailable (predict_shelf_life_oxidation E_a k_0 T).
Proof.
  intros Hk. unfold predict_shelf_life_oxidation.
  destruct (isnan E_a || isnan k_0); [now left|].
  apply fdiv_24_nonneg, fdiv_one_nonneg, fmul_nonneg;
    [assumption | apply fexp_nonneg].
Qed.

Lemma fit_k_0_nonneg (temps_C ips : list float) :
  nonneg_or_unavailable (fit_k_0 (fit temps_C ips)).
Proof.
  unfold fit, fit_arrhenius_model.
  destruct (curve_fit _ _) as [[a b]|e]; cbn [bind except_Exception];
    [| now left].
  destruct (r2_score _ _); cbn [bind except_Exception]; [| now left].
  destruct (mean_squared_error _ _); cbn [bind except_Exception];
    [| now left].
  destruct (mean_absolute_error _ _); cbn [bind except_Exception];
    [| now left].
  cbn [fit_k_0]. apply fexp_nonneg.
Qed.

(** Whatever the measurements and whatever the two libraries return or
    raise, the oxidation pathway computed from the table the fitter writes
    is never a negative shelf life, at any storage temperature: it is a
    non-negative number, plus infinity or NaN. *)
Theorem fitted_table_never_negative (cleaned : list oxidation_measurement)
    (category : string) (T : float) :
  nonneg_or_unavailable (oxidation_pathway category (table cleaned) T).
Proof.
  unfold oxidation_pathway, oxidation_params.
  destruct (find _ (table cleaned)) as [r|] eqn:E; [| now left].
  destruct (isnan (or_e_a r)); [now left|].
  apply oxidation_nonneg_k.
  apply find_some in E. destruct E as [Hin _].
  unfold table in Hin.
  rewrite (ox_results_map curve_fit r2_score mean_squared_error
             mean_absolute_error) in Hin.
  apply in_map_iff in Hin. destruct Hin as [[c g] [<- _]].
  cbn [fst snd]. unfold ox_result. cbn [or_k_0]. apply fit_k_0_nonneg.
Qed.

(** A quality metric that raises makes the fitter discard a fit that had
    succeeded: the category gets the "unavailable" parameters. *)
Theorem metric_failure_discards_fit (temps_C ips : list float)
    (a b : float) (e : exn) :
  let x := reciprocal_kelvin temps_C in
  let y := log_rate ips in
  let y_pred := map (fun xi => arrhenius_linear_model xi a b) x in
  curve_fit x y = OK (a, b) ->
  r2_score y y_pred = Raise e
  \/ mean_squared_error y y_pred = Raise e
  \/ mean_absolute_error y y_pred = Raise e ->
  fit temps_C ips = fit_unavailable.
Proof.
  intros x y y_pred Hfit H. unfold fit, fit_arrhenius_model.
  fold (reciprocal_kelvin temps_C) (log_rate ips). fold x y.
  rewrite Hfit. cbn [bind]. fold y_pred.
  destruct H as [H | [H | H]].
  - now rewrite H.
  - rewrite H. now destruct (r2_score y y_pred).
  - rewrite H. destruct (r2_score y y_pred); [| reflexivity].
    now destruct (mean_squared_error y y_pred).
Qed.

End ArrheniusPipeline.

Section ArrheniusPipelineInstances.

Import CombinedModel OxidationFit Spec.
Local Open Scope string_scope.
Local Open Scope R_scope.

Lemma fitted_row_predicts_fitted_line_witness :
  let curve_fit := Sample.curve_fit_checking 2 (Fin 19, Fin (- 8000)) in
  let metric := Sample.metric_returning 1 in
  let group := filter (fun r => String.eqb (category r) "C")
                 Sample.oxidation_sheet in
  let row := ox_result curve_fit metric metric metric "C" group in
  40 + 273.15 <> 0
  /\ predict_shelf_life_oxidation (or_e_a row) (or_k_0 row) (Fin 40)
     = Fin (exp (- (19 + - 8000 / (40 + 273.15))) / 24)
  /\ predict_shelf_life_oxidation (or_e_a row) (or_k_0 row) (Fin 25)
     = or_ip_days_25c row.
Proof.
  intros curve_fit metric group row.
  assert (HT : 40 + 273.15 <> 0) by lra.
  refine (conj HT _).
  refine (fitted_row_predicts_fitted_line curve_fit metric metric metric
            "C" group 19 (- 8000) 40 _ _ _ _ HT).
  - unfold group. rewrite sample_average_per_temperature. reflexivity.
  - eexists; reflexivity.
  - eexists; reflexivity.
  - eexists; reflexivity.
Defined.

Lemma metric_failure_discards_fit_witness :
  let curve_fit := Sample.curve_fit_checking 2 (Fin 19, Fin (- 8000)) in
  fit_arrhenius_model curve_fit (Sample.metric_raising ValueError)
    (Sample.metric_returning 1) (Sample.metric_returning 1)
    [Fin 100; Fin 110; Fin 120] [Fin 12; Fin 6; Fin 3]
  = fit_unavailable.
Proof.
  intros curve_fit.
  refine (metric_failure_discards_fit curve_fit
            (Sample.metric_raising ValueError)
            (Sample.metric_returning 1) (Sample.metric_returning 1)
            [Fin 100; Fin 110; Fin 120] [Fin 12; Fin 6; Fin 3]
            (Fin 19) (Fin (- 8000)) ValueError _ _).
  - reflexivity.
  - left. reflexivity.
Defined.

End ArrheniusPipelineInstances.

(** ** The GAB fitter when the libraries behave *)

Section GABPipeline.

Import CombinedModel MoistureFit Spec.
Local Open Scope string_scope.

Variable curve_fit :
  list float -> list float -> float * float * float ->
  result (float * float * float).
Variables r2_score mean_squared_error mean_absolute_error :
  list float -> list float -> result float.

Let row := gab_result curve_fit r2_score mean_squared_error
             mean_absolute_error.
Let loop := gab_loop curve_fit r2_score mean_squared_error
              mean_absolute_error.
Let table := gab_results curve_fit r2_score mean_squared_error
               mean_absolute_error.

Lemma gab_result_benign (category : string)
    (group : list moisture_measurement) :
  (forall xs ys p0 e, curve_fit xs ys p0 = Raise e -> e = RuntimeError) ->
  (forall y p, exists v, r2_score y p = OK v) ->
  (forall y p, exists v, mean_squared_error y p = OK v) ->
  (forall y p, exists v, mean_absolute_error y p = OK v) ->
  row category group = OK (expected_gab_row curve_fit category group).
Proof.
  intros Hcf H1 H2 H3. unfold row, gab_result, fit_gab_model, expected_gab_row.
  rewrite !(loc_mask_valid group).
  destruct (curve_fit _ _ init_params) as [[[W_m C] K]|e] eqn:E.
  - cbn [bind except_RuntimeError].
    destruct (isnan W_m); cbn [negb bind]; [reflexivity|].
    destruct (H1 (map moisture_content (valid_observations group))
                (map (fun a => gab_model a W_m C K)
                   (map water_activity (valid_observations group))))
      as [v1 ->].
    destruct (H2 (map moisture_content (valid_observations group))
                (map (fun a => gab_model a W_m C K)
                   (map water_activity (valid_observations group))))
      as [v2 ->].
    destruct (H3 (map moisture_content (valid_observations group))
                (map (fun a => gab_model a W_m C K)
                   (map water_activity (valid_observations group))))
      as [v3 ->].
    reflexivity.
  - rewrite (Hcf _ _ _ _ E). reflexivity.
Qed.

Lemma gab_loop_map groups acc (f : string -> list moisture_measurement ->
                                   moisture_row) :
  (forall c g, row c g = OK (f c g)) ->
  loop groups acc
  = OK (acc ++ map (fun kg => f (fst kg) (snd kg)) groups)%list.
Proof.
  intros Hf. revert acc. induction groups as [|[c g] groups IH]; intros acc.
  - cbn. now rewrite app_nil_r.
  - unfold loop. cbn [gab_loop]. fold row loop. rewrite Hf. cbn [bind].
    rewrite IH, <- app_assoc. reflexivity.
Qed.

(** When the optimiser raises nothing but a convergence failure and the
    metrics return, the script ends with a table that has, for every
    category of the sheet and no other, the row made of the optimiser's
    parameters for that category's valid observations, or the
    "unavailable" row where it did not converge. *)
Theorem gab_results_benign (moisture_df : list moisture_measurement) :
  (forall xs ys p0 e, curve_fit xs ys p0 = Raise e -> e = RuntimeError) ->
  (forall y p, exists v, r2_score y p = OK v) ->
  (forall y p, exists v, mean_squared_error y p = OK v) ->
  (forall y p, exists v, mean_absolute_error y p = OK v) ->
  exists rows,
    table moisture_df = OK rows
    /\ forall c,
         find (fun r => String.eqb (mr_category r) c) rows
         = if str_in c (map category moisture_df)
           then Some (expected_gab_row curve_fit c
                        (filter (fun r => String.eqb (category r) c)
                           moisture_df))
           else None.
Proof.
  intros Hcf H1 H2 H3.
  eexists. split.
  - unfold table, gab_results.
    apply (gab_loop_map _ [] (expected_gab_row curve_fit)).
    intros c g. now apply gab_result_benign.
  - intros c. cbn [app].
    apply (find_map_groupby category (expected_gab_row curve_fit)
             mr_category).
    intros k g. unfold expected_gab_row.
    destruct (curve_fit _ _ _) as [[[W_m C] K]|e]; reflexivity.
Qed.


End GABPipeline.

Section GABPipelineInstances.

Import CombinedModel MoistureFit Spec.
Local Open Scope string_scope.
Local Open Scope R_scope.

Lemma gab_results_benign_witness :
  let metric := Sample.metric_returning 1 in
  exists rows,
    gab_results Sample.curve_fit_gab_giving_up metric metric metric
      Sample.moisture_sheet = OK rows
    /\ find (fun r => String.eqb (mr_category r) "D") rows
       = Some (gab_unavailable "D")
    /\ find (fun r => String.eqb (mr_category r) "C") rows
       = Some (MoistureRow "C" (Fin 0.05) (Fin 10) (Fin 0.8)).
Proof.
  intros metric.
  destruct (gab_results_benign Sample.curve_fit_gab_giving_up
              metric metric metric Sample.moisture_sheet)
    as [rows [Hrows Hfind]].
  - intros xs ys p0 e. unfold Sample.curve_fit_gab_giving_up.
    destruct (_ <? _)%nat; [intros H; now injection H | discriminate].
  - intros; eexists; reflexivity.
  - intros; eexists; reflexivity.
  - intros; eexists; reflexivity.
  - exists rows. split; [exact Hrows|]. split.
    + rewrite (Hfind "D"). reflexivity.
    + rewrite (Hfind "C"). reflexivity.
Defined.


End GABPipelineInstances.

(** ** The order of the groups *)

Section KeysSorted.

Import PD.

Context {K : Type}.
Variable present : K -> bool.
Variables (eqb leb : K -> K -> bool).
Variable lt : K -> K -> Prop.

Hypothesis eqb_eq :
  forall a b, present a = true -> present b = true ->
              eqb a b = true -> a = b.
Hypothesis leb_lt :
  forall a b, present a = true -> present b = true ->
              eqb a b = false -> leb a b = true -> lt a b.
Hypothesis not_leb_lt :
  forall a b, present a = true -> present b = true ->
              eqb a b = false -> leb a b = false -> lt b a.
Hypothesis lt_trans : forall a b c, lt a b -> lt b c -> lt a c.

Lemma insert_key_In (k k' : K) (ks : list K) :
  In k' (insert_key eqb leb k ks) -> k' = k \/ In k' ks.
Proof.
  induction ks as [|h t IH]; cbn [insert_key].
  - intros [<- | []]. now left.
  - destruct (eqb k h); [now right|].
    destruct (leb k h).
    + intros [<- | H]; [now left | now right].
    + intros [<- | H]; [right; now left|].
      destruct (IH H) as [-> | H']; [now left | right; now right].
Qed.

Lemma In_insert_key_present (k k' : K) (ks : list K) :
  present k = true -> Forall (fun h => present h = true) ks ->
  k' = k \/ In k' ks -> In k' (insert_key eqb leb k ks).
Proof.
  intros Hk. induction ks as [|h t IH]; intros Hks H; cbn [insert_key].
  - destruct H as [-> | []]. now left.
  - inversion Hks as [|? ? Hh Ht]; subst.
    destruct (eqb k h) eqn:E.
    + destruct H as [-> | H]; [| exact H].
      left. symmetry. now apply eqb_eq.
    + destruct (leb k h).
      * destruct H as [-> | H]; [now left | now right].
      * destruct H as [-> | [<- | H]].
        -- right. apply IH; [assumption | now left].
        -- now left.
        -- right. apply IH; [assumption | now right].
Qed.

Lemma insert_key_sorted (k : K) (ks : list K) :
  present k = true -> Forall (fun h => present h = true) ks ->
  StronglySorted lt ks ->
  StronglySorted lt (insert_key eqb leb k ks)
  /\ Forall (fun h => present h = true) (insert_key eqb leb k ks).
Proof.
  intros Hk. induction ks as [|h t IH]; intros Hks Hs; cbn [insert_key].
  - split; repeat constructor; assumption.
  - inversion Hks as [|? ? Hh Ht]; subst.
    apply StronglySorted_inv in Hs. destruct Hs as [Hst Hht].
    destruct (eqb k h) eqn:E.
    + split; [now constructor | assumption].
    + destruct (leb k h) eqn:L.
      * assert (Hkh : lt k h) by now apply leb_lt.
        split; [| now constructor].
        constructor; [now constructor|].
        constructor; [assumption|].
        revert Hht. apply Forall_impl. intros a. now apply lt_trans.
      * assert (Hhk : lt h k) by now apply not_leb_lt.
        destruct (IH Ht Hst) as [Hs' Hp'].
        split; [| now constructor].
        constructor; [assumption|].
        apply Forall_forall. intros a Ha.
        destruct (insert_key_In _ _ _ Ha) as [-> | Ha']; [assumption|].
        rewrite Forall_forall in Hht. now apply Hht.
Qed.

Context {A : Type}.
Variable key : A -> K.

Lemma keys_fold_sorted (df : list A) (acc : list K) :
  Forall (fun h => present h = true) acc -> StronglySorted lt acc ->
  let ks := fold_left (fun acc r => if present (key r)
                                    then insert_key eqb leb (key r) acc
                                    else acc) df acc in
  StronglySorted lt ks
  /\ Forall (fun h => present h = true) ks
  /\ (forall k, In k ks <->
                In k acc \/ (In k (map key df) /\ present k = true)).
Proof.
  revert acc. induction df as [|r df IH]; intros acc Hp Hs; cbn [fold_left].
  - repeat split; try assumption; cbn; [tauto|]. intros [H0 | [[] _]].
    exact H0.
  - destruct (present (key r)) eqn:E.
    + destruct (insert_key_sorted (key r) acc E Hp Hs) as [Hs' Hp'].
      destruct (IH _ Hp' Hs') as [S1 [S2 S3]].
      repeat split; try assumption.
      * intros H. apply S3 in H. destruct H as [H | [H P]].
        -- apply insert_key_In in H. destruct H as [-> | H];
             [right; split; [now left | exact E] | now left].
        -- right. split; [now right | exact P].
      * intros H. apply S3.
        destruct H as [H | [[<- | H] P]].
        -- left. apply In_insert_key_present; auto.
        -- left. apply In_insert_key_present; auto.
        -- right. now split.
    + destruct (IH _ Hp Hs) as [S1 [S2 S3]].
      repeat split; try assumption.
      * intros H. apply S3 in H. destruct H as [H | [H P]];
          [now left | right; split; [now right | exact P]].
      * intros H. apply S3.
        destruct H as [H | [[<- | H] P]];
          [now left | congruence | right; now split].
Qed.

(** The keys of [groupby] are the present keys of the rows, each once,
    in ascending order. *)
Lemma keys_sorted (df : list A) :
  StronglySorted lt (keys key present eqb leb df)
  /\ Forall (fun h => present h = true) (keys key present eqb leb df)
  /\ (forall k, In k (keys key present eqb leb df) <->
                In k (map key df) /\ present k = true).
Proof.
  destruct (keys_fold_sorted df [] (Forall_nil _) (SSorted_nil _))
    as [S1 [S2 S3]].
  split; [assumption | split; [assumption|]].
  intros k. split.
  - intros H. apply S3 in H. destruct H as [[] | H]. exact H.
  - intros H. apply S3. now right.
Qed.

End KeysSorted.

Section GroupOrder.

Import CombinedModel OxidationFit Spec.
Local Open Scope string_scope.

Lemma code_leb_lt (a b : string) :
  String.eqb a b = false -> String.leb a b = true -> code_lt a b.
Proof.
  unfold code_lt, String.leb, String.ltb. intros E.
  destruct (String.compare a b) eqn:C; try discriminate; [| reflexivity].
  apply String.compare_eq_iff in C. apply String.eqb_neq in E. contradiction.
Qed.

Lemma code_not_leb_lt (a b : string) :
  String.leb a b = false -> code_lt b a.
Proof.
  unfold code_lt, String.leb, String.ltb.
  rewrite (String.compare_antisym a b).
  destruct (String.compare b a); cbn; congruence.
Qed.

Lemma code_lt_trans (a b c : string) : code_lt a b -> code_lt b c -> code_lt a c.
Proof.
  unfold code_lt, String.ltb. intros H1 H2.
  destruct (String.compare a b) eqn:C1; try discriminate.
  destruct (String.compare b c) eqn:C2; try discriminate.
  apply OrderedTypeEx.String_as_OT.cmp_lt in C1, C2.
  pose proof (OrderedTypeEx.String_as_OT.lt_trans _ _ _ C1 C2) as H.
  apply OrderedTypeEx.String_as_OT.cmp_lt in H.
  unfold OrderedTypeEx.String_as_OT.cmp in H. now rewrite H.
Qed.

Lemma category_keys_sorted {A : Type} (key : A -> string) (df : list A) :
  StronglySorted code_lt
    (PD.keys key (fun _ => true) String.eqb String.leb df)
  /\ (forall c, In c (PD.keys key (fun _ => true) String.eqb String.leb df)
                <-> In c (map key df)).
Proof.
  destruct (keys_sorted (fun _ => true) String.eqb String.leb code_lt)
    with (key := key) (df := df) as [S1 [_ S3]].
  - intros a b _ _. apply String.eqb_eq.
  - intros a b _ _. apply code_leb_lt.
  - intros a b _ _ _. apply code_not_leb_lt.
  - exact code_lt_trans.
  - split; [exact S1|]. intros c. rewrite S3. tauto.
Qed.

(** Whatever the libraries do, the table of Arrhenius parameters has
    exactly one row for each category code of the cleaned sheet, and the
    rows come in strictly ascending order of the codes. *)
Theorem ox_results_one_row_per_category
    (curve_fit : list float -> list float -> result (float * float))
    (r2_score mean_squared_error mean_absolute_error :
       list float -> list float -> result float)
    (cleaned : list oxidation_measurement) :
  let codes := map or_category
                 (ox_results curve_fit r2_score mean_squared_error
                    mean_absolute_error cleaned) in
  StronglySorted code_lt codes
  /\ (forall c, In c codes <-> In c (map category cleaned)).
Proof.
  intros codes.
  assert (E : codes
              = PD.keys category (fun _ => true) String.eqb String.leb
                  cleaned).
  { unfold codes. rewrite ox_results_map. unfold PD.groupby.
    rewrite !map_map. cbn [fst snd ox_result or_category].
    apply map_id. }
  rewrite E. apply category_keys_sorted.
Qed.

Lemma float_lt_trans (a b c : float) :
  float_lt a b -> float_lt b c -> float_lt a c.
Proof.
  unfold float_lt.
  destruct a as [| [|] | x], b as [| [|] | y], c as [| [|] | z];
    cbn [fle feq Bool.eqb]; intros [H1 H2] [H3 H4];
    try discriminate; try (split; reflexivity).
  unfold Rle_b, Req_b in *.
  destruct (Rle_dec x y), (Rle_dec y z), (Req_dec_T x y), (Req_dec_T y z);
    try discriminate.
  destruct (Rle_dec x z), (Req_dec_T x z);
    first [lra | split; reflexivity].
Qed.

Lemma feq_eq (a b : float) : (a =? b)%fl = true -> a = b.
Proof.
  destruct a as [| s | x], b as [| t | y]; cbn [feq]; try discriminate.
  - intros H. apply Bool.eqb_prop in H. now subst.
  - unfold Req_b. destruct (Req_dec_T x y); [now subst | discriminate].
Qed.

Lemma float_not_leb_lt (a b : float) :
  isnan a = false -> isnan b = false ->
  (a <=? b)%fl = false -> float_lt b a.
Proof.
  unfold float_lt.
  destruct a as [| [|] | x], b as [| [|] | y]; cbn [isnan fle feq Bool.eqb];
    try discriminate; try (intros _ _ _; split; reflexivity).
  intros _ _. unfold Rle_b, Req_b.
  destruct (Rle_dec x y); [discriminate|]. intros _.
  destruct (Rle_dec y x), (Req_dec_T y x);
    first [lra | split; reflexivity].
Qed.

(** The sample given to the Arrhenius fit has one point for each
    temperature set-point of the category that is not missing, and the
    points come in strictly increasing temperature: no temperature is
    repeated, none is NaN. *)
Theorem average_per_temperature_distinct (group : list oxidation_measurement) :
  let temps_C := map fst (average_per_temperature group) in
  StronglySorted float_lt temps_C
  /\ Forall (fun t => isnan t = false) temps_C
  /\ (forall t, In t temps_C <->
                In t (map set_point_t group) /\ isnan t = false).
Proof.
  intros temps_C.
  assert (E : temps_C
              = PD.keys set_point_t (fun k => negb (isnan k)) feq fle group).
  { unfold temps_C, average_per_temperature, PD.groupby.
    rewrite !map_map. cbn [fst snd]. apply map_id. }
  rewrite E.
  destruct (keys_sorted (fun k => negb (isnan k)) feq fle float_lt)
    with (key := set_point_t) (df := group) as [S1 [S2 S3]].
  - intros a b _ _. apply feq_eq.
  - intros a b _ _ H1 H2. now split.
  - intros a b Ha Hb _. apply float_not_leb_lt.
    + now destruct (isnan a).
    + now destruct (isnan b).
  - exact float_lt_trans.
  - split; [exact S1 | split].
    + revert S2. apply Forall_impl. intros t. now destruct (isnan t).
    + intros t. rewrite S3. destruct (isnan t); cbn; intuition congruence.
Qed.

End GroupOrder.

(** ** How much the outlier filter can remove *)

Section OutlierFilterHalf.

Import OxidationFit Spec.
Local Open Scope R_scope.

Lemma sorted_prefix_le (s : list R) :
  StronglySorted Rle s ->
  forall k, (0 < k <= List.length s)%nat ->
  Forall (fun x => x <= nth (k - 1) s 0) (firstn k s).
Proof.
  induction 1 as [|a t Hs IH Ha]; intros k Hk; cbn [List.length] in Hk.
  - lia.
  - destruct k as [|[|k]]; [lia | |].
    + cbn. constructor; [lra | constructor].
    + cbn [firstn]. replace (S (S k) - 1)%nat with (S k) by lia.
      cbn [nth]. constructor.
      * rewrite Forall_forall in Ha. apply Ha. apply nth_In. lia.
      * specialize (IH (S k)). replace (S k - 1)%nat with k in IH by lia.
        apply IH. lia.
Qed.

Lemma nth_In_firstn (s : list R) :
  forall i k, (i < k)%nat -> (i < List.length s)%nat ->
  In (nth i s 0) (firstn k s).
Proof.
  induction s as [|a s IH]; intros i k Hik Hi; cbn [List.length] in Hi;
    [lia|].
  destruct k as [|k]; [lia|]. cbn [firstn].
  destruct i as [|i]; [now left|]. right. apply IH; lia.
Qed.

Lemma filter_length_le {A : Type} (p q : A -> bool) (l : list A) :
  (forall x, In x l -> p x = true -> q x = true) ->
  (List.length (filter p l) <= List.length (filter q l))%nat.
Proof.
  induction l as [|a l IH]; intros H; [cbn; lia|].
  cbn [filter].
  assert (IH' : (List.length (filter p l) <= List.length (filter q l))%nat).
  { apply IH. intros x Hx. apply H. now right. }
  destruct (p a) eqn:P.
  - rewrite (H a (or_introl eq_refl) P). cbn [List.length]. lia.
  - destruct (q a); cbn [List.length]; lia.
Qed.

Lemma filter_length_perm {A : Type} (p : A -> bool) (l1 l2 : list A) :
  Permutation l1 l2 ->
  List.length (filter p l1) = List.length (filter p l2).
Proof.
  induction 1; cbn [filter]; try congruence.
  - destruct (p x); cbn [List.length]; congruence.
  - destruct (p x), (p y); reflexivity.
Qed.

Lemma Rsorted_strongly (l : list R) : StronglySorted Rle (Rsort l).
Proof.
  apply Sorted_StronglySorted; [| apply Rsort_sorted].
  intros x y z. apply Rle_trans.
Qed.

(** At least half of the values are at most the median. *)
Lemma half_below_median (d : list R) :
  d <> [] ->
  (List.length d
   <= 2 * List.length (filter (fun y => Rle_b y (Rmedian d)) d))%nat.
Proof.
  intros Hd.
  rewrite <- (filter_length_perm _ _ _ (Rsort_perm d)).
  pose proof (Rsorted_strongly d) as Hs.
  unfold Rmedian. rewrite <- (Rsort_length d).
  set (s := Rsort d) in *.
  assert (Hn : (0 < List.length s)%nat).
  { unfold s. rewrite Rsort_length. destruct d; [contradiction | cbn; lia]. }
  set (n := List.length s) in *.
  set (m := if Nat.odd n then nth (n / 2) s 0
            else (nth (n / 2 - 1) s 0 + nth (n / 2) s 0) / 2).
  set (k := if Nat.odd n then S (n / 2) else (n / 2)%nat).
  assert (Hk : (0 < k <= n)%nat /\ (n <= 2 * k)%nat).
  { unfold k. pose proof (Nat.div_mod_eq n 2) as Hdm.
    pose proof (Nat.mod_upper_bound n 2 ltac:(lia)) as Hub.
    destruct (Nat.odd n) eqn:Eo.
    - lia.
    - rewrite <- Nat.negb_even in Eo. apply negb_false_iff in Eo.
      apply Nat.even_spec in Eo. destruct Eo as [h Eh].
      rewrite Eh in *. rewrite Nat.mul_comm, Nat.div_mul by lia. lia. }
  destruct Hk as [Hk1 Hk2].
  assert (Hm : nth (k - 1) s 0 <= m).
  { unfold k, m. destruct (Nat.odd n) eqn:Eo.
    - replace (S (n / 2) - 1)%nat with (n / 2)%nat by lia. lra.
    - assert (nth (n / 2 - 1) s 0 <= nth (n / 2) s 0).
      { assert (Hlt : (n / 2 < n)%nat) by (apply Nat.div_lt; lia).
        pose proof (sorted_prefix_le s Hs (S (n / 2)) ltac:(lia)) as Hp.
        replace (S (n / 2) - 1)%nat with (n / 2)%nat in Hp by lia.
        rewrite Forall_forall in Hp. apply Hp.
        apply nth_In_firstn; lia. }
      lra. }
  assert (Hpre : Forall (fun x => Rle_b x m = true) (firstn k s)).
  { pose proof (sorted_prefix_le s Hs k Hk1) as Hp.
    revert Hp. apply Forall_impl. intros x Hx. apply Rle_b_true. lra. }
  assert (Hsplit : List.length (filter (fun y => Rle_b y m) s)
                   = (List.length (filter (fun y => Rle_b y m) (firstn k s))
                      + List.length
                          (filter (fun y => Rle_b y m) (skipn k s)))%nat).
  { rewrite <- length_app, <- filter_app, firstn_skipn. reflexivity. }
  rewrite Hsplit.
  assert (Hall : filter (fun y => Rle_b y m) (firstn k s) = firstn k s).
  { clear - Hpre. induction (firstn k s) as [|a l IH]; [reflexivity|].
    inversion Hpre; subst. cbn [filter].
    match goal with H : Rle_b a m = true |- _ => rewrite H end.
    f_equal. now apply IH. }
  rewrite Hall, length_firstn. fold n. lia.
Qed.

Lemma Rmedian_nonneg (d : list R) :
  Forall (fun y => 0 <= y) d -> 0 <= Rmedian d.
Proof.
  intros Hd. unfold Rmedian.
  assert (Hs : forall i, 0 <= nth i (Rsort d) 0).
  { intros i. destruct (nth_in_or_default i (Rsort d) 0) as [H | ->];
      [| lra].
    rewrite Forall_forall in Hd. apply Hd.
    apply (Permutation_in _ (Rsort_perm d)), H. }
  destruct (Nat.odd _); [apply Hs|].
  pose proof (Hs (List.length (Rsort d) / 2 - 1)%nat).
  pose proof (Hs (List.length (Rsort d) / 2)%nat). lra.
Qed.

Lemma RMAD_nonneg (l : list R) : 0 <= RMAD l.
Proof.
  unfold RMAD. apply Rmedian_nonneg. rewrite Forall_map.
  apply Forall_forall. intros x _. apply Rabs_pos.
Qed.

Lemma loc_mask_length {A : Type} (df : list A) (mask : list bool) :
  List.length mask = List.length df ->
  List.length (PD.loc_mask df mask)
  = List.length (filter (fun b => b) mask).
Proof.
  unfold PD.loc_mask. rewrite length_map. revert mask.
  induction df as [|a df IH]; intros [|b mask] H; try discriminate;
    [reflexivity|].
  cbn [combine filter snd]. injection H as H.
  destruct b; cbn [List.length]; now rewrite IH.
Qed.

Lemma filter_map_length {A B : Type} (f : A -> B) (p : B -> bool)
    (l : list A) :
  List.length (filter p (map f l))
  = List.length (filter (fun x => p (f x)) l).
Proof.
  induction l as [|a l IH]; [reflexivity|].
  cbn [map filter]. destruct (p (f a)); cbn [List.length]; now rewrite IH.
Qed.

(** With a threshold of at least 0.6745, the default 3.5 for one, the
    filter keeps at least half of any group of positive readings. *)
Theorem remove_outliers_keeps_half (group : list oxidation_measurement)
    (ips : list R) (z_thresh : R) (min_n : Z) :
  map ip_h group = map Fin ips ->
  Forall (fun ip => 0 < ip) ips ->
  0.6745 <= z_thresh ->
  (List.length group
   <= 2 * List.length (remove_outliers group (Fin z_thresh) min_n))%nat.
Proof.
  intros Hips Hpos Ht.
  destruct (Z.ltb_spec (Z.of_nat (List.length group)) min_n) as [Hs|Hb].
  { unfold remove_outliers. apply Z.ltb_lt in Hs. rewrite Hs. lia. }
  destruct group as [|r0 group'] eqn:Eg; [cbn; lia|].
  rewrite <- Eg in *.
  assert (Hne : group <> []) by (rewrite Eg; discriminate).
  assert (Hlen : List.length ips = List.length group).
  { apply (f_equal (@List.length float)) in Hips.
    now rewrite !length_map in Hips. }
  assert (Hlns : map ln ips <> []).
  { destruct ips; [| discriminate]. rewrite Eg in Hlen. discriminate. }
  rewrite (remove_outliers_large group ips z_thresh min_n Hips Hpos Hb Hne).
  set (lns := map ln ips) in *.
  assert (Hn : List.length lns = List.length group).
  { unfold lns. now rewrite length_map. }
  rewrite loc_mask_length
    by (destruct (Req_dec_T _ _); now rewrite !length_map).
  rewrite filter_map_length.
  destruct (Req_dec_T (RMAD lns) 0) as [E0 | E0].
  - rewrite filter_map_length.
    assert (Hall : forall l : list R,
               filter (fun _ : R => (fabs (Fin 0) <=? Fin z_thresh)%fl) l
               = l).
    { intros l. cbn [fabs fle]. rewrite Rabs_R0, Rle_b_true by lra.
      induction l as [|a l IH]; [reflexivity|].
      cbn [filter]. now f_equal. }
    rewrite Hall, Hn. lia.
  - rewrite filter_map_length.
    pose proof (RMAD_nonneg lns) as Hm0.
    assert (Hm : 0 < RMAD lns) by lra.
    pose proof (half_below_median
                  (map (fun x => Rabs (x - Rmedian lns)) lns)) as Hh.
    rewrite length_map, filter_map_length in Hh.
    fold (RMAD lns) in Hh.
    assert (Hd : map (fun x => Rabs (x - Rmedian lns)) lns <> []).
    { destruct lns; [contradiction | discriminate]. }
    specialize (Hh Hd).
    assert (Hle :
      (List.length
         (filter (fun x => Rle_b (Rabs (x - Rmedian lns)) (RMAD lns)) lns)
       <= List.length
            (filter (fun x => (fabs (Fin (robust_z_score lns x))
                               <=? Fin z_thresh)%fl) lns))%nat).
    { apply filter_length_le. intros x _ Hx.
      cbn [fabs fle]. apply Rle_b_true.
      assert (Hx' : Rabs (x - Rmedian lns) <= RMAD lns).
      { revert Hx. unfold Rle_b. destruct (Rle_dec _ _); [auto|discriminate]. }
      unfold robust_z_score.
      unfold Rdiv. rewrite !Rabs_mult, Rabs_inv.
      rewrite (Rabs_right 0.6745) by lra.
      rewrite (Rabs_right (RMAD lns)) by lra.
      assert (Hq : Rabs (x - Rmedian lns) * / RMAD lns <= 1).
      { apply (Rmult_le_reg_r (RMAD lns)); [exact Hm|].
        rewrite Rmult_assoc, Rinv_l by lra. lra. }
      pose proof (Rabs_pos (x - Rmedian lns)) as Hp.
      assert (0 <= Rabs (x - Rmedian lns) * / RMAD lns).
      { apply Rmult_le_pos; [exact Hp|].
        left. now apply Rinv_0_lt_compat. }
      rewrite Rmult_assoc. nra. }
    rewrite Hn in Hh. lia.
Qed.

Lemma remove_outliers_keeps_half_witness :
  (List.length Sample.outlier_group
   <= 2 * List.length
          (remove_outliers Sample.outlier_group (Fin 3.5) 5))%nat.
Proof.
  apply (remove_outliers_keeps_half Sample.outlier_group
           [exp 1; exp 2; exp 3; exp 4; exp 5; exp 6; exp 7; exp 100]
           3.5 5).
  - reflexivity.
  - repeat constructor; apply exp_pos.
  - lra.
Defined.

(** ** Groups where most readings coincide *)

Lemma sorted_suffix_ge (s : list R) :
  StronglySorted Rle s ->
  forall i, (i < List.length s)%nat ->
  Forall (fun x => nth i s 0 <= x) (skipn i s).
Proof.
  induction 1 as [|a t Hs IH Ha]; intros i Hi; cbn [List.length] in Hi.
  - lia.
  - destruct i as [|i].
    + cbn [skipn nth]. constructor; [lra | exact Ha].
    + cbn [skipn nth]. apply IH. lia.
Qed.

Lemma filter_none {A : Type} (p : A -> bool) (l : list A) :
  Forall (fun x => p x = false) l -> filter p l = [].
Proof.
  induction 1 as [|a l Ha _ IH]; [reflexivity|].
  cbn [filter]. now rewrite Ha.
Qed.

Lemma filter_length_bound {A : Type} (p : A -> bool) (l : list A) :
  (List.length (filter p l) <= List.length l)%nat.
Proof.
  induction l as [|a l IH]; [cbn; lia|].
  cbn [filter]. destruct (p a); cbn [List.length]; lia.
Qed.

Lemma filter_length_split {A : Type} (p : A -> bool) (l : list A) (k : nat) :
  List.length (filter p l)
  = (List.length (filter p (firstn k l))
     + List.length (filter p (skipn k l)))%nat.
Proof. rewrite <- length_app, <- filter_app, firstn_skipn. reflexivity. Qed.

(** In a sorted list, a position that a value occurring [c] times cannot
    miss (fewer than [c] elements before it and fewer than [c] from it
    on) holds that value. *)
Lemma sorted_nth_majority (s : list R) (v : R) (i : nat) :
  StronglySorted Rle s ->
  (i < List.length s)%nat ->
  (i < List.length (filter (fun x => Req_b x v) s))%nat ->
  (List.length s - (i + 1)
   < List.length (filter (fun x => Req_b x v) s))%nat ->
  nth i s 0 = v.
Proof.
  intros Hs Hi Hc1 Hc2.
  destruct (Rtotal_order (nth i s 0) v) as [Hlt | [Heq | Hgt]];
    [exfalso | exact Heq | exfalso].
  - pose proof (sorted_prefix_le s Hs (i + 1) ltac:(lia)) as Hp.
    replace (i + 1 - 1)%nat with i in Hp by lia.
    rewrite (filter_length_split _ s (i + 1)) in Hc2.
    rewrite (filter_none _ (firstn (i + 1) s)) in Hc2.
    + pose proof (filter_length_bound (fun x => Req_b x v)
                    (skipn (i + 1) s)) as Hb.
      rewrite length_skipn in Hb. cbn [List.length] in Hc2. lia.
    + revert Hp. apply Forall_impl. intros x Hx.
      apply Req_b_false. lra.
  - pose proof (sorted_suffix_ge s Hs i Hi) as Hp.
    rewrite (filter_length_split _ s i) in Hc1.
    rewrite (filter_none _ (skipn i s)) in Hc1.
    + pose proof (filter_length_bound (fun x => Req_b x v)
                    (firstn i s)) as Hb.
      rewrite length_firstn in Hb. cbn [List.length] in Hc1. lia.
    + revert Hp. apply Forall_impl. intros x Hx.
      apply Req_b_false. lra.
Qed.

(** A value taken by more than half of a list is its median. *)
Lemma majority_median (l : list R) (v : R) :
  (List.length l < 2 * List.length (filter (fun x => Req_b x v) l))%nat ->
  Rmedian l = v.
Proof.
  intros Hmaj.
  rewrite <- (filter_length_perm _ _ _ (Rsort_perm l)) in Hmaj.
  rewrite <- (Rsort_length l) in Hmaj.
  pose proof (Rsorted_strongly l) as Hs.
  unfold Rmedian. set (s := Rsort l) in *.
  pose proof (filter_length_bound (fun x => Req_b x v) s) as Hcb.
  set (n := List.length s) in *.
  set (c := List.length (filter (fun x => Req_b x v) s)) in *.
  pose proof (Nat.div_mod_eq n 2) as Hdm.
  pose proof (Nat.mod_upper_bound n 2 ltac:(lia)) as Hub.
  assert (Hn : (0 < n)%nat) by lia.
  assert (Hhalf : (n / 2 < n)%nat) by (apply Nat.div_lt; lia).
  assert (Hmid : nth (n / 2) s 0 = v).
  { apply sorted_nth_majority; fold n; fold c; try assumption; lia. }
  destruct (Nat.odd n) eqn:Eo; [exact Hmid|].
  assert (He : (n mod 2 = 0)%nat).
  { rewrite <- Nat.negb_even in Eo. apply negb_false_iff in Eo.
    apply Nat.even_spec in Eo. destruct Eo as [h Eh].
    rewrite Eh, Nat.mul_comm. apply Nat.Div0.mod_mul. }
  assert (Hlow : nth (n / 2 - 1) s 0 = v).
  { apply sorted_nth_majority; fold n; fold c; try assumption; lia. }
  rewrite Hmid, Hlow. lra.
Qed.

Lemma majority_MAD (l : list R) (v : R) :
  (List.length l < 2 * List.length (filter (fun x => Req_b x v) l))%nat ->
  RMAD l = 0.
Proof.
  intros Hmaj. unfold RMAD. rewrite (majority_median l v Hmaj).
  apply majority_median. rewrite length_map, filter_map_length.
  eapply Nat.lt_le_trans; [exact Hmaj|].
  apply Nat.mul_le_mono_l, filter_length_le.
  intros x _ Hx. apply Req_b_true.
  assert (x = v).
  { revert Hx. unfold Req_b. destruct (Req_dec_T x v); [auto|discriminate]. }
  subst x. replace (v - v) with 0 by lra. apply Rabs_R0.
Qed.

(** When more than half of the positive readings of a group are the same
    value, the MAD of the logarithms is zero and the filter removes
    nothing, however far the other readings lie (threshold not
    negative). *)
Theorem remove_outliers_majority_equal (group : list oxidation_measurement)
    (ips : list R) (v z_thresh : R) (min_n : Z) :
  map ip_h group = map Fin ips ->
  Forall (fun ip => 0 < ip) ips ->
  (List.length ips
   < 2 * List.length (filter (fun ip => Req_b ip v) ips))%nat ->
  0 <= z_thresh ->
  remove_outliers group (Fin z_thresh) min_n = group.
Proof.
  intros Hips Hpos Hmaj Ht.
  destruct (Z.ltb_spec (Z.of_nat (List.length group)) min_n) as [Hs|Hb].
  { unfold remove_outliers. apply Z.ltb_lt in Hs. now rewrite Hs. }
  assert (Hlen : List.length ips = List.length group).
  { apply (f_equal (@List.length float)) in Hips.
    now rewrite !length_map in Hips. }
  destruct group as [|r0 group'] eqn:Eg.
  { apply remove_outliers_empty. }
  rewrite <- Eg in *.
  assert (Hne : group <> []) by (rewrite Eg; discriminate).
  rewrite (remove_outliers_large group ips z_thresh min_n Hips Hpos Hb Hne).
  assert (E0 : RMAD (map ln ips) = 0).
  { apply (majority_MAD _ (ln v)).
    rewrite length_map, filter_map_length.
    eapply Nat.lt_le_trans; [exact Hmaj|].
    apply Nat.mul_le_mono_l, filter_length_le.
    intros x _ Hx. apply Req_b_true.
    revert Hx. unfold Req_b.
    destruct (Req_dec_T x v); [intros _; now subst | discriminate]. }
  destruct (Req_dec_T (RMAD (map ln ips)) 0) as [_ | N]; [| contradiction].
  apply loc_mask_all.
  - now rewrite !length_map.
  - rewrite !Forall_map. apply Forall_forall. intros x _.
    cbn [fabs fle]. rewrite Rabs_R0. apply Rle_b_true. lra.
Qed.

Lemma remove_outliers_majority_equal_witness :
  let group :=
    map (fun ip => OxidationMeasurement "C" (Fin 110) (Fin ip))
      [5; 5; 1000; 5; 0.001; 5; 5] in
  remove_outliers group (Fin 3.5) 6 = group.
Proof.
  intros group.
  apply (remove_outliers_majority_equal group
           [5; 5; 1000; 5; 0.001; 5; 5] 5 3.5 6).
  - reflexivity.
  - repeat constructor; lra.
  - cbn [filter].
    repeat first [rewrite (Req_b_true 5 5) by lra
                 | rewrite (Req_b_false 1000 5) by lra
                 | rewrite (Req_b_false 0.001 5) by lra];
    cbn [filter List.length]. lia.
  - lra.
Defined.

End OutlierFilterHalf.
